(** * Trace utilities of [mlflow.tracing.utils]: identifier codec, span-name
  deduplication, attribute decoding, the trace JSON encoder and the
  request-id accessor.

  The development is a shallow embedding of
  [src/mlflow/tracing/utils/__init__.py].  Python integers are [Z], Python
  [str] values are [string]s read as sequences of code points below 256,
  dictionaries are [gmap]s, and a call that may raise returns a [result]. *)

From Stdlib Require Import ZArith Ascii String List Lia Bool.
From stdpp Require Import base numbers option list strings gmap fin_maps
functions pretty.

Local Open Scope string_scope.
Local Open Scope Z_scope.

(** ** Python outcomes: a value or a raised exception *)

Module Py.

(** The exception classes the module can meet.  All of them derive from
    [Exception]; [JSONDecodeError] is a subclass of [ValueError], and
    [OtherError] stands for any further [Exception] subclass, tagged by
    its class name. *)
Inductive exn : Type :=
| ValueError
| TypeError
| ImportError
| JSONDecodeError
| RecursionError
| MlflowTracingException (error_code : string)
| OtherError (class_name : string).

Inductive result (A : Type) : Type :=
| Ret (a : A)
| Raise (e : exn).
Arguments Ret {A} a.
Arguments Raise {A} e.

Definition raises {A} (r : result A) : Prop := ∃ e, r = Raise e.

Definition BAD_REQUEST : string := "BAD_REQUEST".

#[global] Instance exn_eq_dec : EqDecision exn.
Proof. solve_decision. Defined.

End Py.
Export Py.

(** ** IdentityCodec *)

Module IdentityCodec.

(** *** Hexadecimal formatting: [format(n, "0Wx")] *)

Definition hex_digit (d : Z) : ascii :=
  match d with
  | 0 => "0" | 1 => "1" | 2 => "2" | 3 => "3"
  | 4 => "4" | 5 => "5" | 6 => "6" | 7 => "7"
  | 8 => "8" | 9 => "9" | 10 => "a" | 11 => "b"
  | 12 => "c" | 13 => "d" | 14 => "e" | _ => "f"
  end%char.

(** Digits are produced least significant first and pushed in front of
    [acc]; the fuel bounds the number of digits. *)
Fixpoint to_hex (fuel : nat) (n : Z) (acc : string) : string :=
  match fuel with
  | O => acc
  | S fuel' =>
      let acc' := String (hex_digit (n mod 16)) acc in
      if n / 16 =? 0 then acc' else to_hex fuel' (n / 16) acc'
  end.

(** [format(n, "x")] for [0 <= n]. *)
Definition format_x (n : Z) : string :=
  to_hex (S (Z.to_nat (Z.log2 n))) n "".

Fixpoint zeros (k : nat) : string :=
  match k with
  | O => ""
  | S k' => String "0" (zeros k')
  end.

Definition zero_pad (width : nat) (s : string) : string :=
  zeros (width - String.length s) +:+ s.

(** [format(n, "0Wx")]: the [0] flag pads with zeros after the sign, up
    to a total of [width] characters. *)
Definition format_0x (width : nat) (n : Z) : string :=
  if n <? 0 then String "-" (zero_pad (width - 1) (format_x (- n)))
  else zero_pad width (format_x n).

(** Modelled from the spec: [opentelemetry.trace.format_span_id] and
    [format_trace_id] are not part of the sources; they are the 16- and
    32-digit zero-padded lowercase hexadecimal renderings
    [format(span_id, "016x")] and [format(trace_id, "032x")]. *)
Definition format_span_id (span_id : Z) : string := format_0x 16 span_id.
Definition format_trace_id (trace_id : Z) : string := format_0x 32 trace_id.

Definition encode_span_id (span_id : Z) : string :=
  "0x" +:+ format_span_id span_id.

Definition encode_trace_id (trace_id : Z) : string :=
  "0x" +:+ format_trace_id trace_id.

(** *** [functools.lru_cache(maxsize=1)]

    The decorator keeps the last argument together with its result. *)
Definition lru_cache1 {A B} `{EqDecision A} (f : A → B)
    (cache : option (A * B)) (x : A) : B * option (A * B) :=
  match cache with
  | Some (k, v) =>
      if decide (k = x) then (v, cache) else (f x, Some (x, f x))
  | None => (f x, Some (x, f x))
  end.

Definition cache_consistent {A B} (f : A → B) (cache : option (A * B)) : Prop :=
  match cache with
  | Some (k, v) => v = f k
  | None => True
  end.

Definition encode_span_id_cached := lru_cache1 encode_span_id.
Definition encode_trace_id_cached := lru_cache1 encode_trace_id.

(** *** Parsing: [int(s, 16)] *)

(** [Py_ISSPACE]: tab, line feed, vertical tab, form feed, carriage
    return, space. *)
Definition Py_ISSPACE (c : ascii) : bool :=
  let n := nat_of_ascii c in
  ((9 <=? n) && (n <=? 13) || (n =? 32))%nat.

(** [_PyLong_DigitValue]: the value of an alphanumeric character as a
    digit, 37 for every other character. *)
Definition digit_value (c : ascii) : Z :=
  let n := Z.of_nat (nat_of_ascii c) in
  if (48 <=? n) && (n <=? 57) then n - 48
  else if (97 <=? n) && (n <=? 122) then n - 87
  else if (65 <=? n) && (n <=? 90) then n - 55
  else 37.

Definition is_underscore (c : ascii) : bool := bool_decide (c = "_"%char).

(** Code points 0x85 and 0xA0 are the white space of the Latin-1 block. *)
Definition Py_UNICODE_ISSPACE_high (c : ascii) : bool :=
  let n := nat_of_ascii c in ((n =? 133) || (n =? 160))%nat.

Definition is_ascii (s : string) : bool :=
  forallb (fun c => (nat_of_ascii c <? 128)%nat) (list_ascii_of_string s).

Fixpoint transform_tail (s : string) : string :=
  match s with
  | "" => ""
  | String c r =>
      if (nat_of_ascii c <? 127)%nat then String c (transform_tail r)
      else if Py_UNICODE_ISSPACE_high c then String " " (transform_tail r)
      else "?"
  end.

(** [_PyUnicode_TransformDecimalAndSpaceToASCII]: an ASCII string is
    returned as it is; otherwise white space becomes a blank and the
    result is cut at the first character that is neither ASCII, white
    space nor a decimal digit, leaving a question mark there. *)
Definition TransformDecimalAndSpaceToASCII (s : string) : string :=
  if is_ascii s then s else transform_tail s.

Fixpoint skip_space (s : string) : string :=
  match s with
  | "" => ""
  | String c r => if Py_ISSPACE c then skip_space r else s
  end.

(** The digit loop of [long_from_string_base]: digits and underscores are
    consumed, two underscores in a row or a trailing underscore are a
    syntax error ([None]).  The result is the value, the number of
    digits and the unread rest. *)
Fixpoint scan_digits (base : Z) (s : string) (prev : ascii) (acc : Z)
    (digits : nat) : option (Z * nat * string) :=
  match s with
  | String c r =>
      if is_underscore c then
        if is_underscore prev then None
        else scan_digits base r c acc digits
      else if digit_value c <? base then
        scan_digits base r c (acc * base + digit_value c) (S digits)
      else if is_underscore prev then None else Some (acc, digits, s)
  | "" => if is_underscore prev then None else Some (acc, digits, s)
  end.

Definition is_x (c : ascii) : bool :=
  bool_decide (c = "x"%char) || bool_decide (c = "X"%char).
Definition is_o (c : ascii) : bool :=
  bool_decide (c = "o"%char) || bool_decide (c = "O"%char).
Definition is_b (c : ascii) : bool :=
  bool_decide (c = "b"%char) || bool_decide (c = "B"%char).

(** An optional sign. *)
Definition read_sign (str : string) : Z * string :=
  match str with
  | String c r =>
      if bool_decide (c = "+"%char) then (1, r)
      else if bool_decide (c = "-"%char) then (-1, r)
      else (1, str)
  | "" => (1, str)
  end.

Definition skip_underscore (str : string) : string :=
  match str with
  | String c r => if is_underscore c then r else str
  | "" => str
  end.

(** The prefix that goes with the base, and one underscore after it. *)
Definition skip_prefix (base : Z) (str : string) : string :=
  match str with
  | String c0 (String c1 r) =>
      if bool_decide (c0 = "0"%char)
         && ((base =? 16) && is_x c1 || (base =? 8) && is_o c1
             || (base =? 2) && is_b c1)
      then skip_underscore r
      else str
  | _ => str
  end.

Definition starts_with_underscore (str : string) : bool :=
  match str with
  | String c _ => is_underscore c
  | "" => false
  end.

(** [PyLong_FromString] for an explicit base: white space, sign, prefix,
    digits, white space, and then the end of the string. *)
Definition PyLong_FromString (str : string) (base : Z) : result Z :=
  let str := skip_space str in
  let '(sign, str) := read_sign str in
  let str := skip_prefix base str in
  if starts_with_underscore str then Raise ValueError
  else
    match scan_digits base str "000"%char 0 0 with
    | None => Raise ValueError
    | Some (v, digits, rest) =>
        if (digits =? 0)%nat then Raise ValueError
        else match skip_space rest with
             | "" => Ret (sign * v)
             | _ => Raise ValueError
             end
    end.

(** [int(s, base)] on a [str]. *)
Definition int_ (s : string) (base : Z) : result Z :=
  PyLong_FromString (TransformDecimalAndSpaceToASCII s) base.

Definition decode_id (span_or_trace_id : string) : result Z :=
  int_ span_or_trace_id 16.

(** *** The wire format and the syntax of base-16 literals, stated apart
    from the functions above *)

Fixpoint all_chars (P : ascii → bool) (s : string) : bool :=
  match s with
  | "" => true
  | String c r => P c && all_chars P r
  end.

Definition is_lower_hex (c : ascii) : bool :=
  let n := nat_of_ascii c in
  ((48 <=? n) && (n <=? 57) || (97 <=? n) && (n <=? 102))%nat.

Definition is_hex (c : ascii) : bool := digit_value c <? 16.

(** White space of a string of code points below 256. *)
Definition is_space (c : ascii) : bool :=
  Py_ISSPACE c || Py_UNICODE_ISSPACE_high c.

(** The value of a run of hexadecimal digits, read from the left;
    underscores do not count. *)
Fixpoint hex_value (s : string) (acc : Z) : Z :=
  match s with
  | "" => acc
  | String c r =>
      if is_underscore c then hex_value r acc
      else hex_value r (acc * 16 + digit_value c)
  end.

(** ["0x"] followed by exactly [digits] lowercase hexadecimal digits, which
    are the digits of [id]. *)
Definition wire_format (digits : nat) (id : Z) (s : string) : Prop :=
  ∃ ds, s = "0x" +:+ ds ∧ String.length ds = digits
        ∧ all_chars is_lower_hex ds = true ∧ hex_value ds 0 = id.

(** One or more hexadecimal digits. *)
Definition hex_digits (s : string) : Prop :=
  s ≠ "" ∧ all_chars is_hex s = true.

(** Hexadecimal digits with single underscores between them. *)
Inductive grouped_digits : string → Prop :=
| grouped_last c : is_hex c = true → grouped_digits (String c "")
| grouped_digit c s :
    is_hex c = true → grouped_digits s → grouped_digits (String c s)
| grouped_underscore c s :
    is_hex c = true → grouped_digits s →
    grouped_digits (String c (String "_" s)).

(** The strings that Python reads as an integer in base 16: white space,
    an optional sign, an optional prefix with at most one underscore after
    it, grouped digits, white space. *)
Definition base16_literal (space : ascii → bool) (s : string) (v : Z) : Prop :=
  ∃ lead sign pre body trail,
    s = lead +:+ sign +:+ pre +:+ body +:+ trail
    ∧ all_chars space lead = true ∧ all_chars space trail = true
    ∧ sign ∈ [""; "+"; "-"]
    ∧ pre ∈ [""; "0x"; "0X"; "0x_"; "0X_"]
    ∧ grouped_digits body
    ∧ v = (if bool_decide (sign = "-") then -1 else 1) * hex_value body 0.

(** The first character of [s] satisfies [P]. *)
Definition head_is (P : ascii → bool) (s : string) : Prop :=
  match s with
  | String c _ => P c = true
  | "" => False
  end.

(** The digit loop stops in front of [trail]. *)
Definition stops (trail : string) : Prop :=
  match trail with
  | String c _ => is_hex c = false ∧ is_underscore c = false ∧ is_x c = false
  | "" => True
  end.

(** The characters of a literal other than white space. *)
Definition is_core (c : ascii) : bool :=
  is_hex c || is_underscore c || is_x c
  || bool_decide (c = "+"%char) || bool_decide (c = "-"%char).

(** The characters that the transformation keeps or turns into a blank. *)
Definition is_kept (c : ascii) : bool :=
  (nat_of_ascii c <? 127)%nat || Py_UNICODE_ISSPACE_high c.

Definition to_blank (c : ascii) : ascii :=
  if Py_UNICODE_ISSPACE_high c then " "%char else c.

Fixpoint map_chars (f : ascii → ascii) (s : string) : string :=
  match s with
  | "" => ""
  | String c r => String (f c) (map_chars f r)
  end.

End IdentityCodec.

(** ** SpanNameDeduplicator *)

Module SpanNames.

(** Span objects live in the heap; a span is known by its address and the
    store gives the [_name] field of the OpenTelemetry span behind it.
    [span.name] reads that field and [span._span._name = v] writes it. *)
Abbreviation store := (nat → string).

(** [collections.Counter(iterable)]. *)
Definition Counter (names : list string) : gmap string nat :=
  foldl (λ c name, <[name := S (default 0%nat (c !! name))]> c) ∅ names.

(** [{name: 1 for name, count in counter.items() if count > 1}]. *)
Definition duplicated (counter : gmap string nat) : gmap string nat :=
  (λ _, 1%nat) <$> filter (λ kv, (1 < kv.2)%nat) counter.

(** The f-string [f"{name}_{count}"]. *)
Definition indexed_name (name : string) (count : nat) : string :=
  name +:+ "_" +:+ pretty count.

(** One iteration of the renaming loop. *)
Definition rename (acc : gmap string nat * store) (span : nat)
    : gmap string nat * store :=
  let '(span_name_counter, st) := acc in
  let name := st span in
  match span_name_counter !! name with
  | Some count =>
      if bool_decide (count ≠ 0%nat) then
        (<[name := S count]> span_name_counter,
         <[span := indexed_name name count]> st)
      else acc
  | None => acc
  end.

Definition deduplicate_span_names_in_place (spans : list nat) (st : store)
    : store :=
  let span_name_counter := Counter ((λ span, st span) <$> spans) in
  let span_name_counter := duplicated span_name_counter in
  (foldl rename (span_name_counter, st) spans).2.

(** The names of a batch, in sequence order. *)
Definition names_of (st : store) (spans : list nat) : list string :=
  st <$> spans.

Definition occurrences (name : string) (names : list string) : nat :=
  length (filter (λ n, n = name) names).

(** A batch of freshly allocated spans carrying the given names: span [i]
    sits at address [i]. *)
Definition store_of_names (names : list string) : store :=
  λ i, default "" (names !! i).

Definition batch_of_names (names : list string) : list nat :=
  seq 0 (length names).

Definition deduplicated_names (names : list string) : list string :=
  names_of
    (deduplicate_span_names_in_place (batch_of_names names)
       (store_of_names names))
    (batch_of_names names).

Definition no_underscore (s : string) : bool :=
  IdentityCodec.all_chars (fun c => negb (IdentityCodec.is_underscore c)) s.

(** No name of the batch is the new name of a renamed span. *)
Definition fresh_indexed_names (names : list string) : Prop :=
  ∀ name k, name ∈ names → (1 < occurrences name names)%nat →
    (1 ≤ k ≤ occurrences name names)%nat → indexed_name name k ∉ names.

(** No name that occurs once is the new name of a renamed span. *)
Definition collision_free (names : list string) : Prop :=
  ∀ single name k, single ∈ names → occurrences single names = 1%nat →
    (1 < occurrences name names)%nat →
    (1 ≤ k ≤ occurrences name names)%nat → single ≠ indexed_name name k.

End SpanNames.

(** ** AttributeDecoder *)

Module Json.

(** The values [json.loads] builds.  A string is its list of code points;
    a float is kept as the matched source text, since only the shape of
    the document matters here; a dictionary lists its items in insertion
    order. *)
#[warnings="-register-all"]
Inductive pyobj : Type :=
| PNone
| PBool (b : bool)
| PInt (z : Z)
| PFloat (text : string)
| PStr (s : list N)
| PList (items : list pyobj)
| PDict (items : list (list N * pyobj)).

(** [d[key] = value] on an insertion-ordered dictionary. *)
Fixpoint dict_set (items : list (list N * pyobj)) (key : list N)
    (value : pyobj) : list (list N * pyobj) :=
  match items with
  | [] => [(key, value)]
  | (k, v) :: rest =>
      if decide (k = key) then (k, value) :: rest
      else (k, v) :: dict_set rest key value
  end.

Definition code (c : ascii) : N := N_of_ascii c.

(** [WHITESPACE]: blank, tab, line feed, carriage return. *)
Definition is_ws (c : ascii) : bool :=
  let n := code c in
  ((n =? 32) || (n =? 9) || (n =? 10) || (n =? 13))%N.

Fixpoint skip_ws (s : string) : string :=
  match s with
  | "" => ""
  | String c r => if is_ws c then skip_ws r else s
  end.

Definition is_digit (c : ascii) : bool :=
  let n := code c in ((48 <=? n) && (n <=? 57))%N.

Definition hex_val (c : ascii) : option N :=
  let n := code c in
  if ((48 <=? n) && (n <=? 57))%N then Some (n - 48)%N
  else if ((97 <=? n) && (n <=? 102))%N then Some (n - 87)%N
  else if ((65 <=? n) && (n <=? 70))%N then Some (n - 55)%N
  else None.

(** Four hexadecimal digits of a [\uXXXX] escape. *)
Definition hex4 (s : string) : option (N * string) :=
  match s with
  | String a (String b (String c (String d r))) =>
      match hex_val a, hex_val b, hex_val c, hex_val d with
      | Some x, Some y, Some z, Some w =>
          Some (((x * 16 + y) * 16 + z) * 16 + w, r)%N
      | _, _, _, _ => None
      end
  | _ => None
  end.

Definition is_high_surrogate (u : N) : bool :=
  ((55296 <=? u) && (u <=? 56319))%N.
Definition is_low_surrogate (u : N) : bool :=
  ((56320 <=? u) && (u <=? 57343))%N.
Definition join_surrogates (hi lo : N) : N :=
  (65536 + ((hi - 55296) * 1024 + (lo - 56320)))%N.

(** [scanstring] in strict mode, entered after the opening quote. *)
Fixpoint scanstring (fuel : nat) (s : string) (acc : list N)
    : result (list N * string) :=
  match fuel with
  | O => Raise JSONDecodeError
  | S fuel' =>
      match s with
      | "" => Raise JSONDecodeError
      | String c r =>
          if bool_decide (c = "034"%char) then Ret (reverse acc, r)
          else if bool_decide (c = "\"%char) then
            match r with
            | "" => Raise JSONDecodeError
            | String e r' =>
                let simple (u : N) := scanstring fuel' r' (u :: acc) in
                if bool_decide (e = "034"%char) then simple 34%N
                else if bool_decide (e = "\"%char) then simple 92%N
                else if bool_decide (e = "/"%char) then simple 47%N
                else if bool_decide (e = "b"%char) then simple 8%N
                else if bool_decide (e = "f"%char) then simple 12%N
                else if bool_decide (e = "n"%char) then simple 10%N
                else if bool_decide (e = "r"%char) then simple 13%N
                else if bool_decide (e = "t"%char) then simple 9%N
                else if bool_decide (e = "u"%char) then
                  match hex4 r' with
                  | None => Raise JSONDecodeError
                  | Some (u, r'') =>
                      match r'' with
                      | String "\" (String "u" r3) =>
                          if is_high_surrogate u
                             && (6 <? String.length r'')%nat then
                            match hex4 r3 with
                            | None => Raise JSONDecodeError
                            | Some (lo, r4) =>
                                if is_low_surrogate lo then
                                  scanstring fuel' r4
                                    (join_surrogates u lo :: acc)
                                else scanstring fuel' r'' (u :: acc)
                            end
                          else scanstring fuel' r'' (u :: acc)
                      | _ => scanstring fuel' r'' (u :: acc)
                      end
                  end
                else Raise JSONDecodeError
            end
          else if (code c <? 32)%N then Raise JSONDecodeError
          else scanstring fuel' r (code c :: acc)
      end
  end.

Fixpoint span_digits (s : string) : string * string :=
  match s with
  | "" => ("", "")
  | String c r =>
      if is_digit c then
        let '(ds, rest) := span_digits r in (String c ds, rest)
      else ("", s)
  end.

Fixpoint decimal_value (ds : string) (acc : Z) : Z :=
  match ds with
  | "" => acc
  | String c r => decimal_value r (acc * 10 + (Z.of_N (code c) - 48))
  end.

(** [sys.get_int_max_str_digits()], at its default. *)
Definition int_max_str_digits : nat := 4300.

(** [_match_number]: an optional minus sign, then a single zero or a
    run of digits that does not start with zero, then an optional
    fraction and an optional exponent.  [None] means that no number
    starts here. *)
Definition match_number (s : string) : option (result pyobj * string) :=
  let '(neg, s1) :=
    match s with
    | String "-" r => (true, r)
    | _ => (false, s)
    end in
  let integer : option (string * string) :=
    match s1 with
    | String "0" r => Some ("0", r)
    | String c _ => if is_digit c then Some (span_digits s1) else None
    | "" => None
    end in
  match integer with
  | None => None
  | Some (int_part, s2) =>
      let '(frac, s3) :=
        match s2 with
        | String "." (String d r) =>
            if is_digit d then
              let '(ds, rest) := span_digits (String d r) in
              (String "." ds, rest)
            else ("", s2)
        | _ => ("", s2)
        end in
      let '(exp, s4) :=
        match s3 with
        | String e r =>
            if bool_decide (e = "e"%char) || bool_decide (e = "E"%char) then
              let '(sg, r1) :=
                match r with
                | String "+" r' => ("+", r')
                | String "-" r' => ("-", r')
                | _ => ("", r)
                end in
              let '(ds, rest) := span_digits r1 in
              match ds with
              | "" => ("", s3)
              | _ => (String e (sg +:+ ds), rest)
              end
            else ("", s3)
        | "" => ("", s3)
        end in
      let sign_text := if neg then "-" else "" in
      match frac, exp with
      | "", "" =>
          if (int_max_str_digits <? String.length int_part)%nat
          then Some (Raise ValueError, s4)
          else
            let v := decimal_value int_part 0 in
            Some (Ret (PInt (if neg then - v else v)), s4)
      | _, _ => Some (Ret (PFloat (sign_text +:+ int_part +:+ frac +:+ exp)), s4)
      end
  end.

Definition strip_prefix (p s : string) : option string :=
  if String.prefix p s
  then Some (String.substring (String.length p)
               (String.length s - String.length p) s)
  else None.

(** The element loop of [JSONArray], entered before a value. *)
Fixpoint array_items (scan : string → result (pyobj * string))
    (fuel : nat) (s : string) (values : list pyobj)
    : result (pyobj * string) :=
  match fuel with
  | O => Raise RecursionError
  | S fuel' =>
      match scan s with
      | Raise e => Raise e
      | Ret (value, r) =>
          let values := value :: values in
          match skip_ws r with
          | String "]" r' => Ret (PList (reverse values), r')
          | String "," r' => array_items scan fuel' (skip_ws r') values
          | _ => Raise JSONDecodeError
          end
      end
  end.

Definition JSONArray (scan : string → result (pyobj * string))
    (fuel : nat) (s : string) : result (pyobj * string) :=
  match skip_ws s with
  | String "]" r => Ret (PList [], r)
  | s' => array_items scan fuel s' []
  end.

(** The item loop of [JSONObject], entered after the quote that opens a
    key. *)
Fixpoint object_items (scan : string → result (pyobj * string))
    (fuel : nat) (s : string) (pairs : list (list N * pyobj))
    : result (pyobj * string) :=
  match fuel with
  | O => Raise RecursionError
  | S fuel' =>
      match scanstring (S (String.length s)) s [] with
      | Raise e => Raise e
      | Ret (key, r) =>
          match skip_ws r with
          | String ":" r1 =>
              match scan (skip_ws r1) with
              | Raise e => Raise e
              | Ret (value, r2) =>
                  let pairs := dict_set pairs key value in
                  match skip_ws r2 with
                  | String "}" r3 => Ret (PDict pairs, r3)
                  | String "," r3 =>
                      match skip_ws r3 with
                      | String "034" r4 => object_items scan fuel' r4 pairs
                      | _ => Raise JSONDecodeError
                      end
                  | _ => Raise JSONDecodeError
                  end
              end
          | _ => Raise JSONDecodeError
          end
      end
  end.

Definition JSONObject (scan : string → result (pyobj * string))
    (fuel : nat) (s : string) : result (pyobj * string) :=
  match skip_ws s with
  | String "034" r => object_items scan fuel r []
  | String "}" r => Ret (PDict [], r)
  | _ => Raise JSONDecodeError
  end.

(** [scan_once].  A position with no value is a [JSONDecodeError].  The
    fuel bounds the nesting depth; [decode] starts with more fuel than the
    text has characters, so it never runs out.  The recursion limit of the
    interpreter, which makes very deep nesting a [RecursionError], is left
    out. *)
Fixpoint scan_once (fuel : nat) (s : string) : result (pyobj * string) :=
  match fuel with
  | O => Raise RecursionError
  | S fuel' =>
      let literal (word : string) (v : pyobj) (otherwise : result (pyobj * string)) :=
        match strip_prefix word s with
        | Some r => Ret (v, r)
        | None => otherwise
        end in
      let number :=
        match match_number s with
        | Some (Ret v, r) => Ret (v, r)
        | Some (Raise e, _) => Raise e
        | None => Raise JSONDecodeError
        end in
      match s with
      | "" => Raise JSONDecodeError
      | String c r =>
          if bool_decide (c = "034"%char) then
            match scanstring (S (String.length r)) r [] with
            | Ret (str, rest) => Ret (PStr str, rest)
            | Raise e => Raise e
            end
          else if bool_decide (c = "{"%char) then
            JSONObject (scan_once fuel') fuel' r
          else if bool_decide (c = "["%char) then
            JSONArray (scan_once fuel') fuel' r
          else if bool_decide (c = "n"%char) then
            literal "null" PNone number
          else if bool_decide (c = "t"%char) then
            literal "true" (PBool true) number
          else if bool_decide (c = "f"%char) then
            literal "false" (PBool false) number
          else if bool_decide (c = "N"%char) then
            literal "NaN" (PFloat "NaN") number
          else if bool_decide (c = "I"%char) then
            literal "Infinity" (PFloat "Infinity") number
          else if bool_decide (c = "-"%char) then
            literal "-Infinity" (PFloat "-Infinity") number
          else number
      end
  end.

(** [JSONDecoder.decode]: one value between optional white space, and
    nothing after it. *)
Definition decode (s : string) : result pyobj :=
  match scan_once (S (String.length s)) (skip_ws s) with
  | Raise e => Raise e
  | Ret (obj, rest) =>
      match skip_ws rest with
      | "" => Ret obj
      | _ => Raise JSONDecodeError
      end
  end.

(** [json.loads(s)]: the argument of the accessor is what [dict.get]
    returned, so it may be [None], which is a [TypeError]. *)
Definition loads (s : option string) : result pyobj :=
  match s with
  | None => Raise TypeError
  | Some s => decode s
  end.

End Json.

Module Attributes.
Import Json.

Record Span : Type := { attributes : gmap string string }.

Inductive log_record : Type :=
| Debug (message : string).

(** [except Exception]: every class of [exn] derives from [Exception]. *)
Definition is_Exception (e : exn) : bool := true.

(** The accessor returns what [json.loads] returns; when the [try] block
    raises, the handler logs at debug level and the function ends without
    a [return], which yields [None]. *)
Definition get_otel_attribute (span : Span) (key : string)
    : result pyobj * list log_record :=
  match loads (attributes span !! key) with
  | Ret v => (Ret v, [])
  | Raise e =>
      if is_Exception e
      then (Ret PNone, [Debug ("Failed to get attribute " +:+ key)])
      else (Raise e, [])
  end.

End Attributes.

(** ** TraceValueEncoder *)

Module Encoder.

(** What the interpreter finds installed.  [langchain] and [pydantic] are
    [None] when the import raises [ImportError]; otherwise they carry the
    outcome of the version test made on the library:
    [Version(langchain.__version__) < Version("0.3.0")] and
    [Version(pydantic.VERSION) >= Version("2.0")].
    [langchain_core_pydantic_v1] tells whether
    [from langchain_core.pydantic_v1 import BaseModel] succeeds, and
    [llama_index] whether both imports of the streaming response classes
    succeed.  Installed libraries carry well-formed version strings. *)
Record runtime : Type := {
  langchain : option bool;
  langchain_core_pydantic_v1 : bool;
  pydantic : option bool;
  llama_index : bool;
}.

(** The methods of the value that the encoder may call. *)
Inductive call : Type :=
| CallDict
| CallModelDump
| CallAsdict
| CallStr.

#[global] Instance call_eq_dec : EqDecision call.
Proof. solve_decision. Defined.

Section WithPayload.

(** The mappings that [dict()], [model_dump()] and [asdict] build. *)
Context {mapping : Type}.

(** A value handed to the encoder, seen through what the encoder asks
    of it: its type, the [isinstance] tests (read only when the library
    is there) and the outcome of each method call. *)
Record pyobject : Type := {
  type_ : string;
  isinstance_LangChainBaseModel : bool;
  isinstance_pydantic_BaseModel : bool;
  dict_ : result mapping;
  model_dump : result mapping;
  is_dataclass : bool;
  asdict : result mapping;
  isinstance_streaming_response : bool;
  str_ : result string;
}.

(** What [default] hands back to the JSON writer. *)
Inductive encoded : Type :=
| Mapping (m : mapping)
| TypeObject (name : string)
| Str (s : string).

(** A block of the method body either returns, raises, or lets control
    reach the next block. *)
Inductive outcome : Type :=
| Return (v : encoded)
| Raised (e : exn)
| Next.

Definition is_ImportError (e : exn) : bool := bool_decide (e = ImportError).
Definition is_TypeError (e : exn) : bool := bool_decide (e = TypeError).

(** [return obj.m()] inside [try: ... except cls: pass]. *)
Definition return_call (c : call) (r : result mapping)
    (caught : exn → bool) : list call * outcome :=
  ([c], match r with
        | Ret m => Return (Mapping m)
        | Raise e => if caught e then Next else Raised e
        end).

Definition rule_langchain (rt : runtime) (obj : pyobject)
    : list call * outcome :=
  match langchain rt with
  | None => ([], Next)
  | Some before_0_3_0 =>
      if before_0_3_0 then
        if langchain_core_pydantic_v1 rt then
          if isinstance_LangChainBaseModel obj
          then return_call CallDict (dict_ obj) is_ImportError
          else ([], Next)
        else ([], Next)
      else ([], Next)
  end.

Definition rule_pydantic (rt : runtime) (obj : pyobject)
    : list call * outcome :=
  match pydantic rt with
  | None => ([], Next)
  | Some at_least_2_0 =>
      if isinstance_pydantic_BaseModel obj then
        if at_least_2_0
        then return_call CallModelDump (model_dump obj) is_ImportError
        else return_call CallDict (dict_ obj) is_ImportError
      else ([], Next)
  end.

Definition rule_dataclass (obj : pyobject) : list call * outcome :=
  if is_dataclass obj
  then return_call CallAsdict (asdict obj) is_TypeError
  else ([], Next).

Definition _is_safe_to_encode_str (rt : runtime) (obj : pyobject) : bool :=
  if llama_index rt then
    if isinstance_streaming_response obj then false else true
  else true.

Definition rule_unsafe_str (rt : runtime) (obj : pyobject)
    : list call * outcome :=
  if negb (_is_safe_to_encode_str rt obj)
  then ([], Return (TypeObject (type_ obj)))
  else ([], Next).

(** [json.JSONEncoder.default] raises [TypeError] for every value. *)
Definition JSONEncoder_default (obj : pyobject) : result encoded :=
  Raise TypeError.

Definition rule_str (obj : pyobject) : list call * outcome :=
  match JSONEncoder_default obj with
  | Ret v => ([], Return v)
  | Raise e =>
      if is_TypeError e then
        ([CallStr], match str_ obj with
                    | Ret s => Return (Str s)
                    | Raise e' => Raised e'
                    end)
      else ([], Raised e)
  end.

(** Sequential composition of two blocks. *)
Definition and_then (first second : list call * outcome)
    : list call * outcome :=
  match first with
  | (calls, Next) => ((calls ++ second.1)%list, second.2)
  | _ => first
  end.

Definition default_blocks (rt : runtime) (obj : pyobject)
    : list call * outcome :=
  and_then (rule_langchain rt obj)
    (and_then (rule_pydantic rt obj)
       (and_then (rule_dataclass obj)
          (and_then (rule_unsafe_str rt obj) (rule_str obj)))).

(** [TraceJSONEncoder.default]: the calls made on the value and the
    result.  Falling off the end of the body would return [None]; the
    last block never lets that happen. *)
Definition default (rt : runtime) (obj : pyobject)
    : list call * result (option encoded) :=
  let '(calls, o) := default_blocks rt obj in
  (calls, match o with
          | Return v => Ret (Some v)
          | Raised e => Raise e
          | Next => Ret None
          end).

(** No rule before the string conversion takes the value. *)
Definition unclassified (rt : runtime) (obj : pyobject) : Prop :=
  (rule_langchain rt obj).2 = Next ∧ (rule_pydantic rt obj).2 = Next
  ∧ (rule_dataclass obj).2 = Next ∧ (rule_unsafe_str rt obj).2 = Next.


(** The value is an instance of one of the streaming response classes
    and the library that defines them is installed. *)
Definition unsafe_str (rt : runtime) (obj : pyobject) : Prop :=
  llama_index rt = true ∧ isinstance_streaming_response obj = true.

End WithPayload.

Arguments pyobject : clear implicits.
Arguments encoded : clear implicits.
Arguments outcome : clear implicits.

End Encoder.

(** ** The ambient prediction context *)

Module PredictionContext.

(** [mlflow.pyfunc.context.Context]. *)
Record Context : Type := {
  request_id : option string;
  is_evaluate : bool;
  dependencies_schemas : option (gmap string string);
}.

(** The surroundings of a call: whether [mlflow.pyfunc.context] can be
    imported, and what [get_prediction_context()] returns. *)
Record ambient : Type := {
  pyfunc_importable : bool;
  get_prediction_context : option Context;
}.

Definition _try_get_prediction_context (amb : ambient) : option Context :=
  if pyfunc_importable amb then get_prediction_context amb else None.

(** Truth value of an optional string: [None] and the empty string are
    false. *)
Definition truthy (s : option string) : bool :=
  match s with
  | None => false
  | Some "" => false
  | Some _ => true
  end.

(** A context object is always true, so [not context] holds of [None]
    only. *)
Definition maybe_get_request_id (amb : ambient) (is_evaluate_arg : bool)
    : result (option string) :=
  match _try_get_prediction_context amb with
  | None => Ret None
  | Some context =>
      if is_evaluate_arg && negb (is_evaluate context) then Ret None
      else if negb (truthy (request_id context)) && is_evaluate_arg then
        Raise (MlflowTracingException BAD_REQUEST)
      else Ret (request_id context)
  end.

Definition maybe_get_dependencies_schemas (amb : ambient)
    : option (gmap string string) :=
  match _try_get_prediction_context amb with
  | Some context => dependencies_schemas context
  | None => None
  end.

End PredictionContext.

(** ** Tag filtering *)

Module Tags.

Section WithImmutableTags.

(** [mlflow.utils.mlflow_tags.IMMUTABLE_TAGS], defined outside this file. *)
Context (IMMUTABLE_TAGS : gset string).

(** [{k: v for k, v in tags.items() if k not in IMMUTABLE_TAGS}]. *)
Definition exclude_immutable_tags (tags : gmap string string)
    : gmap string string :=
  filter (λ kv, kv.1 ∉ IMMUTABLE_TAGS) tags.

End WithImmutableTags.

End Tags.

(** ** Capture of the arguments of an instrumented call *)

Module Capture.

Section WithBinding.

(** The function, the positional and the keyword arguments of the call, and
    the values bound to parameters. *)
Context {function args kwargs value : Type}.

(** [inspect.signature(func).bind] applied to the unpacked arguments,
    followed by [apply_defaults()]: the mapping from parameter names to values, or the
    exception that [inspect] raises. *)
Context (bind_with_defaults : function → args → kwargs → result (gmap string value)).

(** [bool(v)], which runs the [__bool__] or [__len__] of the value and may
    raise. *)
Context (bool_ : value → result bool).

(** [arguments.get("self")] is [None], which is false, when nothing is
    bound to [self]; otherwise its truth value decides on the [del]. *)
Definition capture_function_input_args (func : function) (a : args)
    (kw : kwargs) : result (gmap string value) :=
  match bind_with_defaults func a kw with
  | Raise e => Raise e
  | Ret arguments =>
      match arguments !! "self" with
      | None => Ret arguments
      | Some self =>
          match bool_ self with
          | Raise e => Raise e
          | Ret true => Ret (delete "self" arguments)
          | Ret false => Ret arguments
          end
      end
  end.

End WithBinding.

End Capture.

(** ** Request identifiers *)

Module RequestId.

(** [uuid.UUID(bytes=b, version=4).int] on the integer [random] that the 16
    random bytes [b] spell: the variant bits and the version number are
    written over the random bits. *)
Definition uuid4_int (random : Z) : Z :=
  let int := Z.land random (Z.lnot (Z.shiftl 49152 48)) in
  let int := Z.lor int (Z.shiftl 32768 48) in
  let int := Z.land int (Z.lnot (Z.shiftl 61440 64)) in
  Z.lor int (Z.shiftl 4 76).

(** [UUID.hex]: ['%032x' % self.int]. *)
Definition uuid_hex (int : Z) : string := IdentityCodec.format_0x 32 int.

(** [uuid.uuid4().hex], as a function of the random bytes drawn. *)
Definition generate_request_id (random : Z) : string :=
  uuid_hex (uuid4_int random).

End RequestId.

(** ** Concrete inputs used by the examples below *)

Module Samples.
Import Encoder PredictionContext Attributes.

(** Nothing optional is installed. *)
Definition bare_runtime : runtime :=
  {| langchain := None; langchain_core_pydantic_v1 := false;
     pydantic := None; llama_index := false |}.

(** Only the library of the streaming responses is installed. *)
Definition llama_runtime : runtime :=
  {| langchain := None; langchain_core_pydantic_v1 := false;
     pydantic := None; llama_index := true |}.

(** The object has no such method: calling it raises [AttributeError].
    The objects below are never asked for it. *)
Definition not_called : result (list string) := Raise (OtherError "AttributeError").


(** A plain object with a harmless [__str__]. *)
Definition plain_object : pyobject (list string) :=
  {| type_ := "Plain";
     isinstance_LangChainBaseModel := false;
     isinstance_pydantic_BaseModel := false;
     dict_ := not_called; model_dump := not_called;
     is_dataclass := false; asdict := not_called;
     isinstance_streaming_response := false;
     str_ := Ret "<Plain object>" |}.

(** A streaming response whose fields cannot be copied: [asdict] raises
    [TypeError], and [__str__] would consume the stream. *)
Definition streaming_response : pyobject (list string) :=
  {| type_ := "StreamingResponse";
     isinstance_LangChainBaseModel := false;
     isinstance_pydantic_BaseModel := false;
     dict_ := not_called; model_dump := not_called;
     is_dataclass := true; asdict := Raise TypeError;
     isinstance_streaming_response := true;
     str_ := Ret "consumed" |}.

(** A streaming response, a dataclass as well, whose fields can all be
    copied. *)
Definition copyable_streaming_response : pyobject (list string) :=
  {| type_ := "StreamingResponse";
     isinstance_LangChainBaseModel := false;
     isinstance_pydantic_BaseModel := false;
     dict_ := not_called; model_dump := not_called;
     is_dataclass := true; asdict := Ret ["response_gen"; "source_nodes"];
     isinstance_streaming_response := true;
     str_ := Ret "consumed" |}.

(** An evaluation context whose request id is the empty string. *)
Definition empty_request_context : ambient :=
  {| pyfunc_importable := true;
     get_prediction_context :=
       Some {| request_id := Some ""; is_evaluate := true;
               dependencies_schemas := None |} |}.

Definition evaluation_context : ambient :=
  {| pyfunc_importable := true;
     get_prediction_context :=
       Some {| request_id := None; is_evaluate := true;
               dependencies_schemas := None |} |}.

Definition span_with (key value : string) : Span :=
  {| attributes := {[ key := value ]} |}.

Definition empty_span : Span := {| attributes := ∅ |}.

End Samples.

(** * Properties *)

Import IdentityCodec SpanNames Json Attributes PredictionContext Tags Capture
  RequestId Samples.

(** ** IdentityCodec *)

Section CharacterClasses.

Local Ltac by_cases c :=
  destruct c as [[] [] [] [] [] [] [] []]; vm_compute;
  first [ discriminate
        | let H := fresh in intros H; discriminate H
        | intros; repeat split; reflexivity ].

Lemma lower_hex_is_hex c : is_lower_hex c = true → is_hex c = true.
Proof. by_cases c. Qed.

Lemma lower_hex_is_ascii c :
  is_lower_hex c = true → (nat_of_ascii c <? 128)%nat = true.
Proof. by_cases c. Qed.

Lemma hex_char_facts c :
  is_hex c = true →
  is_underscore c = false ∧ Py_ISSPACE c = false ∧ is_space c = false
  ∧ is_x c = false ∧ bool_decide (c = "+"%char) = false
  ∧ bool_decide (c = "-"%char) = false
  ∧ (nat_of_ascii c <? 127)%nat = true.
Proof. by_cases c. Qed.

Lemma space_char_facts c :
  Py_ISSPACE c = true →
  is_underscore c = false ∧ is_hex c = false ∧ is_x c = false
  ∧ bool_decide (c = "+"%char) = false ∧ bool_decide (c = "-"%char) = false
  ∧ is_space c = true ∧ (nat_of_ascii c <? 127)%nat = true.
Proof. by_cases c. Qed.

Lemma is_space_cases c :
  is_space c = true →
  (Py_ISSPACE c = true ∧ (nat_of_ascii c <? 127)%nat = true)
  ∨ (Py_UNICODE_ISSPACE_high c = true ∧ (nat_of_ascii c <? 128)%nat = false
     ∧ (nat_of_ascii c <? 127)%nat = false).
Proof.
  destruct c as [[] [] [] [] [] [] [] []]; vm_compute; intros H;
    first [discriminate H | left; split; reflexivity
          | right; repeat split; reflexivity].
Qed.

Lemma is_underscore_true c : is_underscore c = true → c = "_"%char.
Proof. unfold is_underscore. by intros ?%bool_decide_eq_true. Qed.

Lemma is_x_true c : is_x c = true → c = "x"%char ∨ c = "X"%char.
Proof.
  unfold is_x. intros [H|H]%orb_true_iff; apply bool_decide_eq_true in H; auto.
Qed.

Lemma hex_digit_lower d : is_lower_hex (hex_digit d) = true.
Proof.
  destruct d as [|p|p]; [reflexivity| |reflexivity].
  do 4 (try destruct p as [p|p|]); reflexivity.
Qed.

Lemma digit_value_hex_digit d : 0 ≤ d < 16 → digit_value (hex_digit d) = d.
Proof.
  intros Hd.
  assert (d = 0 ∨ d = 1 ∨ d = 2 ∨ d = 3 ∨ d = 4 ∨ d = 5 ∨ d = 6 ∨ d = 7
          ∨ d = 8 ∨ d = 9 ∨ d = 10 ∨ d = 11 ∨ d = 12 ∨ d = 13 ∨ d = 14
          ∨ d = 15) as H by lia.
  repeat destruct H as [->|H]; try subst d; reflexivity.
Qed.

End CharacterClasses.

Section Strings.
Implicit Types (s t : string) (P : ascii → bool).

Lemma append_cons c s t : String c s +:+ t = String c (s +:+ t).
Proof. reflexivity. Qed.

Lemma append_nil_l s : "" +:+ s = s.
Proof. reflexivity. Qed.

Lemma append_nil_r s : s +:+ "" = s.
Proof. induction s as [|c s IH]; [done|]. by rewrite append_cons, IH. Qed.

Lemma append_assoc s t u : (s +:+ t) +:+ u = s +:+ (t +:+ u).
Proof. induction s as [|c s IH]; [done|]. by rewrite !append_cons, IH. Qed.

Lemma length_append s t :
  String.length (s +:+ t) = (String.length s + String.length t)%nat.
Proof.
  induction s as [|c s IH]; [done|]. rewrite append_cons. simpl. by rewrite IH.
Qed.

Lemma all_chars_append P s t :
  all_chars P (s +:+ t) = all_chars P s && all_chars P t.
Proof.
  induction s as [|c s IH]; [done|].
  rewrite append_cons. simpl. by rewrite IH, andb_assoc.
Qed.

Lemma all_chars_impl P Q s :
  (∀ c, P c = true → Q c = true) → all_chars P s = true → all_chars Q s = true.
Proof.
  intros HPQ. induction s as [|c s IH]; simpl; [done|].
  intros [Hc Hs]%andb_true_iff. rewrite (HPQ c Hc). simpl. auto.
Qed.

Lemma length_zeros k : String.length (zeros k) = k.
Proof. induction k as [|k IH]; simpl; [done|by rewrite IH]. Qed.

Lemma zeros_lower_hex k : all_chars is_lower_hex (zeros k) = true.
Proof. induction k as [|k IH]; simpl; done. Qed.

Lemma hex_value_append s t acc :
  hex_value (s +:+ t) acc = hex_value t (hex_value s acc).
Proof.
  revert acc. induction s as [|c s IH]; intros acc; [done|].
  rewrite append_cons. simpl. destruct (is_underscore c); apply IH.
Qed.

Lemma hex_value_zeros k : hex_value (zeros k) 0 = 0.
Proof. induction k as [|k IH]; simpl; [done|exact IH]. Qed.

End Strings.

Section Formatting.

Lemma to_hex_lower_hex fuel : ∀ n acc,
  all_chars is_lower_hex acc = true →
  all_chars is_lower_hex (to_hex fuel n acc) = true.
Proof.
  induction fuel as [|fuel IH]; intros n acc Hacc; simpl; [done|].
  assert (all_chars is_lower_hex (String (hex_digit (n `mod` 16)) acc) = true).
  { simpl. by rewrite hex_digit_lower. }
  destruct (n `div` 16 =? 0); [done|by apply IH].
Qed.

Lemma to_hex_length fuel : ∀ n acc k,
  0 ≤ n < 16 ^ Z.of_nat (S k) →
  (String.length (to_hex fuel n acc) ≤ S k + String.length acc)%nat.
Proof.
  induction fuel as [|fuel IH]; intros n acc k Hn; simpl to_hex; [lia|].
  destruct (n `div` 16 =? 0) eqn:E; [simpl; lia|].
  apply Z.eqb_neq in E.
  destruct k as [|k].
  { exfalso. apply E. apply Z.div_small. simpl in Hn. lia. }
  etrans; [apply (IH _ _ k)|simpl; lia].
  split; [apply Z.div_pos; lia|].
  apply Z.div_lt_upper_bound; [lia|].
  replace (16 ^ Z.of_nat (S (S k))) with (16 * 16 ^ Z.of_nat (S k)) in Hn; [lia|].
  rewrite (Nat2Z.inj_succ (S k)), Z.pow_succ_r by lia. done.
Qed.

Lemma to_hex_nonempty fuel n acc :
  (String.length acc < String.length (to_hex (S fuel) n acc))%nat.
Proof.
  revert n acc. induction fuel as [|fuel IH]; intros n acc.
  - simpl. destruct (n `div` 16 =? 0); simpl; lia.
  - change (to_hex (S (S fuel)) n acc)
      with (let acc' := String (hex_digit (n `mod` 16)) acc in
            if n `div` 16 =? 0 then acc' else to_hex (S fuel) (n `div` 16) acc').
    simpl. destruct (n `div` 16 =? 0); [simpl; lia|].
    etrans; [|apply IH]. simpl. lia.
Qed.

Lemma to_hex_value fuel : ∀ n acc,
  0 ≤ n < 16 ^ Z.of_nat fuel →
  hex_value (to_hex fuel n acc) 0 = hex_value acc n.
Proof.
  induction fuel as [|fuel IH]; intros n acc Hn.
  { simpl in *. by replace n with 0 by lia. }
  simpl to_hex.
  assert (Hd : 0 ≤ n `mod` 16 < 16) by (apply Z.mod_pos_bound; lia).
  assert (Hstep : ∀ a, hex_value (String (hex_digit (n `mod` 16)) acc) a
                       = hex_value acc (a * 16 + n `mod` 16)).
  { intros a. simpl.
    destruct (hex_char_facts (hex_digit (n `mod` 16))) as [-> _].
    - apply lower_hex_is_hex, hex_digit_lower.
    - by rewrite digit_value_hex_digit. }
  destruct (n `div` 16 =? 0) eqn:E.
  - apply Z.eqb_eq in E. rewrite Hstep. f_equal.
    rewrite (Z.div_mod n 16) at 2 by lia. lia.
  - rewrite IH, Hstep.
    + f_equal. rewrite (Z.div_mod n 16) at 3 by lia. lia.
    + split; [apply Z.div_pos; lia|].
      apply Z.div_lt_upper_bound; [lia|].
      rewrite Nat2Z.inj_succ, Z.pow_succ_r in Hn by lia. lia.
Qed.

Lemma format_x_fuel n :
  0 ≤ n → n < 16 ^ Z.of_nat (S (Z.to_nat (Z.log2 n))).
Proof.
  intros Hn. destruct (decide (n = 0)) as [->|Hne]; [done|].
  rewrite Nat2Z.inj_succ, Z2Nat.id by apply Z.log2_nonneg.
  pose proof (Z.log2_spec n ltac:(lia)) as [_ Hlt].
  eapply Z.lt_le_trans; [exact Hlt|].
  apply Z.pow_le_mono_l. lia.
Qed.

Lemma format_x_value n : 0 ≤ n → hex_value (format_x n) 0 = n.
Proof.
  intros Hn. unfold format_x. rewrite to_hex_value; [done|].
  split; [done|by apply format_x_fuel].
Qed.

Lemma format_x_lower_hex n : all_chars is_lower_hex (format_x n) = true.
Proof. by apply to_hex_lower_hex. Qed.

Lemma format_x_nonempty n : (0 < String.length (format_x n))%nat.
Proof. unfold format_x. apply (to_hex_nonempty _ n ""). Qed.

Lemma format_x_length n k :
  0 ≤ n < 16 ^ Z.of_nat (S k) → (String.length (format_x n) ≤ S k)%nat.
Proof.
  intros Hn. unfold format_x.
  etrans; [by apply (to_hex_length _ n "" k)|simpl; lia].
Qed.

Lemma format_0x_nonneg width n :
  0 ≤ n → format_0x width n = zero_pad width (format_x n).
Proof. intros Hn. unfold format_0x. by rewrite (proj2 (Z.ltb_ge n 0)). Qed.

Lemma zero_pad_lower_hex width s :
  all_chars is_lower_hex s = true →
  all_chars is_lower_hex (zero_pad width s) = true.
Proof.
  intros Hs. unfold zero_pad. by rewrite all_chars_append, zeros_lower_hex.
Qed.

Lemma zero_pad_value width s : hex_value (zero_pad width s) 0 = hex_value s 0.
Proof. unfold zero_pad. by rewrite hex_value_append, hex_value_zeros. Qed.

Lemma zero_pad_length width s :
  (String.length s ≤ width)%nat → String.length (zero_pad width s) = width.
Proof. intros Hs. unfold zero_pad. rewrite length_append, length_zeros. lia. Qed.

Lemma zero_pad_nonempty width s :
  (0 < String.length s)%nat → (0 < String.length (zero_pad width s))%nat.
Proof. intros Hs. unfold zero_pad. rewrite length_append. lia. Qed.

(** The shape of an encoded identifier of at most [4 * width] bits. *)
Lemma format_0x_wire width n :
  (0 < width)%nat → 0 ≤ n < 16 ^ Z.of_nat width →
  wire_format width n ("0x" +:+ format_0x width n).
Proof.
  intros Hw Hn. exists (format_0x width n). split; [done|].
  rewrite format_0x_nonneg by lia. split; [|split].
  - apply zero_pad_length. destruct width as [|k]; [lia|].
    by apply format_x_length.
  - apply zero_pad_lower_hex, format_x_lower_hex.
  - rewrite zero_pad_value. apply format_x_value. lia.
Qed.

End Formatting.

(** C3: a span id below [2^64] is rendered as ["0x"] and exactly 16
    lowercase hexadecimal digits, the digits of the id padded with zeros on
    the left; a trace id below [2^128] as ["0x"] and exactly 32 of them. *)
Theorem encoded_ids_have_wire_format :
  (∀ span_id, 0 ≤ span_id < 2 ^ 64 →
     wire_format 16 span_id (encode_span_id span_id))
  ∧ (∀ trace_id, 0 ≤ trace_id < 2 ^ 128 →
       wire_format 32 trace_id (encode_trace_id trace_id)).
Proof.
  split; intros n Hn.
  - apply (format_0x_wire 16 n); [lia|]. exact Hn.
  - apply (format_0x_wire 32 n); [lia|]. exact Hn.
Qed.

Example encode_span_id_255 : encode_span_id 255 = "0x00000000000000ff".
Proof. reflexivity. Qed.

Example encode_span_id_max : encode_span_id (2 ^ 64 - 1) = "0xffffffffffffffff".
Proof. vm_compute. reflexivity. Qed.

(** Outside the range of identifiers the shape is lost: a negative id gets
    its sign after the prefix, and the result does not decode. *)
Example encode_span_id_negative :
  encode_span_id (-1) = "0x-000000000000001"
  ∧ decode_id (encode_span_id (-1)) = Raise ValueError.
Proof. split; vm_compute; reflexivity. Qed.

Example encode_span_id_too_wide :
  encode_span_id (2 ^ 64) = "0x10000000000000000".
Proof. vm_compute. reflexivity. Qed.

Example encode_trace_id_sample :
  encode_trace_id (2 ^ 127 + 5) = "0x80000000000000000000000000000005".
Proof. vm_compute. reflexivity. Qed.

Section Parsing.
Implicit Types (s t str body trail lead pre sign : string) (c prev : ascii).

(** *** White space *)

Lemma skip_space_split s :
  ∃ lead, s = lead +:+ skip_space s ∧ all_chars Py_ISSPACE lead = true.
Proof.
  induction s as [|c s (lead & IH & Hlead)].
  - by exists "".
  - simpl. destruct (Py_ISSPACE c) eqn:E.
    + exists (String c lead). rewrite append_cons, <- IH. simpl.
      by rewrite E, Hlead.
    + by exists "".
Qed.

Lemma skip_space_append lead s :
  all_chars Py_ISSPACE lead = true → skip_space (lead +:+ s) = skip_space s.
Proof.
  induction lead as [|c lead IH]; [done|].
  simpl. intros [-> H]%andb_true_iff. auto.
Qed.

Lemma skip_space_all s : all_chars Py_ISSPACE s = true ↔ skip_space s = "".
Proof.
  induction s as [|c s IH]; [done|].
  simpl. destruct (Py_ISSPACE c); simpl; [done|]. split; discriminate.
Qed.

(** *** The first character of a string *)

Lemma stops_space trail : all_chars Py_ISSPACE trail = true → stops trail.
Proof.
  destruct trail as [|c r]; [done|]. simpl. intros [Hc _]%andb_true_iff.
  destruct (space_char_facts c Hc) as (? & ? & ? & _). done.
Qed.

Lemma grouped_head body : grouped_digits body → head_is is_hex body.
Proof. by destruct 1. Qed.

Lemma head_is_append P s t : head_is P s → head_is P (s +:+ t).
Proof. by destruct s. Qed.

Lemma skip_space_head s : head_is is_hex s → skip_space s = s.
Proof.
  destruct s as [|c r]; [done|]. simpl. intros H.
  by destruct (hex_char_facts c H) as (_ & -> & _).
Qed.

Lemma read_sign_head s : head_is is_hex s → read_sign s = (1, s).
Proof.
  destruct s as [|c r]; [done|]. simpl. intros H.
  by destruct (hex_char_facts c H) as (_ & _ & _ & _ & -> & -> & _).
Qed.

Lemma starts_with_underscore_head s :
  head_is is_hex s → starts_with_underscore s = false.
Proof.
  destruct s as [|c r]; [done|]. simpl. intros H.
  by destruct (hex_char_facts c H) as (-> & _).
Qed.

(** *** The digit loop *)

Lemma scan_stop trail prev acc k :
  stops trail → is_underscore prev = false →
  scan_digits 16 trail prev acc k = Some (acc, k, trail).
Proof.
  destruct trail as [|c r]; simpl; intros H Hp; rewrite Hp; [done|].
  destruct H as (Hh & -> & _). unfold is_hex in Hh. by rewrite Hh.
Qed.

Lemma scan_digit c r prev acc k :
  is_hex c = true →
  scan_digits 16 (String c r) prev acc k
  = scan_digits 16 r c (acc * 16 + digit_value c) (S k).
Proof.
  intros H. simpl. destruct (hex_char_facts c H) as (-> & _).
  unfold is_hex in H. by rewrite H.
Qed.

Lemma scan_grouped body :
  grouped_digits body → ∀ trail prev acc k, stops trail →
  ∃ n, scan_digits 16 (body +:+ trail) prev acc k
       = Some (hex_value body acc, n, trail) ∧ (k < n)%nat.
Proof.
  induction 1 as [c Hc|c s Hc _ IH|c s Hc _ IH];
    intros trail prev acc k Htrail; rewrite !append_cons, scan_digit by done;
    destruct (hex_char_facts c Hc) as (Hu & _); simpl hex_value; rewrite Hu.
  - exists (S k). simpl append. rewrite scan_stop by done. split; [done|lia].
  - destruct (IH trail c (acc * 16 + digit_value c) (S k) Htrail) as (n & -> & Hn).
    exists n. split; [done|lia].
  - simpl scan_digits. rewrite Hu.
    destruct (IH trail "_"%char (acc * 16 + digit_value c) (S k) Htrail)
      as (n & -> & Hn).
    exists n. split; [done|lia].
Qed.

(** What the loop has read when it succeeds: nothing, a group of digits, or
    an underscore and a group of digits. *)
Lemma scan_sound s : ∀ prev acc k v n rest,
  scan_digits 16 s prev acc k = Some (v, n, rest) →
  ∃ body, s = body +:+ rest ∧ v = hex_value body acc
    ∧ ((body = "" ∧ n = k ∧ is_underscore prev = false)
       ∨ (grouped_digits body ∧ (k < n)%nat)
       ∨ (∃ g, body = String "_" g ∧ grouped_digits g
               ∧ is_underscore prev = false ∧ (k < n)%nat)).
Proof.
  induction s as [|c r IH]; intros prev acc k v n rest; simpl.
  { destruct (is_underscore prev) eqn:Hp; [discriminate|]. intros [= <- <- <-].
    exists "". split; [done|]. split; [done|]. by left. }
  destruct (is_underscore c) eqn:Hu.
  - destruct (is_underscore prev) eqn:Hp; [discriminate|]. intros Hs.
    destruct (IH _ _ _ _ _ _ Hs) as (body & -> & -> & Hb).
    pose proof Hu as ->%is_underscore_true.
    exists (String "_" body). split; [done|]. split; [done|].
    destruct Hb as [(_ & _ & Hc)|[[Hg Hn]|(g & _ & _ & Hc & _)]];
      [discriminate Hc| |discriminate Hc].
    right. right. exists body. auto.
  - destruct (digit_value c <? 16) eqn:Hd.
    + intros Hs. destruct (IH _ _ _ _ _ _ Hs) as (body & -> & -> & Hb).
      exists (String c body). split; [done|]. split.
      { simpl. by rewrite Hu. }
      right. left.
      destruct Hb as [(-> & -> & _)|[[Hg Hn]|(g & -> & Hg & _ & Hn)]].
      * split; [by constructor|lia].
      * split; [by constructor|lia].
      * split; [by constructor|lia].
    + destruct (is_underscore prev) eqn:Hp; [discriminate|].
      intros [= <- <- <-]. exists "". split; [done|]. split; [done|]. by left.
Qed.

(** *** Sign and prefix *)

Lemma read_sign_split s :
  ∃ sign, sign ∈ [""; "+"; "-"] ∧ s = sign +:+ (read_sign s).2
    ∧ (read_sign s).1 = if bool_decide (sign = "-") then -1 else 1.
Proof.
  destruct s as [|c r]; [exists ""; repeat split; set_solver|].
  simpl. destruct (bool_decide (c = "+"%char)) eqn:E1.
  { apply bool_decide_eq_true in E1 as ->. exists "+". repeat split. set_solver. }
  destruct (bool_decide (c = "-"%char)) eqn:E2.
  { apply bool_decide_eq_true in E2 as ->. exists "-". repeat split. set_solver. }
  exists "". repeat split. set_solver.
Qed.

Lemma read_sign_literal sign t :
  sign ∈ [""; "+"; "-"] → head_is is_hex t →
  skip_space (sign +:+ t) = sign +:+ t
  ∧ read_sign (sign +:+ t) = (if bool_decide (sign = "-") then -1 else 1, t).
Proof.
  intros Hs Ht.
  repeat (apply elem_of_cons in Hs as [->|Hs]); [| | |by apply elem_of_nil in Hs].
  - simpl append. by rewrite skip_space_head, read_sign_head.
  - done.
  - done.
Qed.

Lemma skip_prefix_split s :
  ∃ pre, pre ∈ [""; "0x"; "0X"; "0x_"; "0X_"] ∧ s = pre +:+ skip_prefix 16 s.
Proof.
  destruct s as [|c0 [|c1 r]]; try (exists ""; split; [set_solver|done]).
  simpl. destruct (bool_decide (c0 = "0"%char)) eqn:E0; simpl;
    [|exists ""; split; [set_solver|done]].
  apply bool_decide_eq_true in E0 as ->.
  rewrite !orb_false_r.
  destruct (is_x c1) eqn:Ex; [|exists ""; split; [set_solver|done]].
  destruct r as [|c2 r'].
  { apply is_x_true in Ex as [->| ->]; [exists "0x"|exists "0X"];
      (split; [set_solver|done]). }
  simpl. destruct (is_underscore c2) eqn:Eu.
  - apply is_underscore_true in Eu as ->.
    apply is_x_true in Ex as [->| ->]; [exists "0x_"|exists "0X_"];
      (split; [set_solver|done]).
  - apply is_x_true in Ex as [->| ->]; [exists "0x"|exists "0X"];
      (split; [set_solver|done]).
Qed.

(** The second character of a group of digits followed by [trail] is not
    the letter of a prefix. *)
Lemma grouped_no_prefix c r trail :
  grouped_digits (String c r) → stops trail →
  skip_prefix 16 (String c r +:+ trail) = String c r +:+ trail.
Proof.
  intros Hg Ht. rewrite append_cons. unfold skip_prefix.
  destruct (r +:+ trail) as [|c1 r'] eqn:E; [done|].
  assert (is_x c1 = false) as ->; [|by rewrite !andb_false_r].
  inversion Hg as [c' Hc|c' s' Hc Hs|c' s' Hc Hs]; subst.
  - change ("" +:+ trail) with trail in E. rewrite E in Ht.
    by destruct Ht as (_ & _ & ?).
  - apply grouped_head in Hs. destruct r as [|c2 r2]; [done|].
    rewrite append_cons in E. injection E as -> _.
    by destruct (hex_char_facts c1 Hs) as (_ & _ & _ & -> & _).
  - rewrite append_cons in E. by injection E as <- _.
Qed.

Lemma skip_prefix_literal pre body trail :
  pre ∈ [""; "0x"; "0X"; "0x_"; "0X_"] → grouped_digits body → stops trail →
  head_is is_hex (pre +:+ body +:+ trail)
  ∧ skip_prefix 16 (pre +:+ body +:+ trail) = body +:+ trail.
Proof.
  intros Hp Hb Ht. pose proof (grouped_head body Hb) as Hh.
  destruct body as [|c r]; [done|].
  repeat (apply elem_of_cons in Hp as [->|Hp]); [| | | | |by apply elem_of_nil in Hp].
  - split; [done|]. by apply grouped_no_prefix.
  - split; [done|]. simpl in Hh. simpl.
    by destruct (hex_char_facts c Hh) as (-> & _).
  - split; [done|]. simpl in Hh. simpl.
    by destruct (hex_char_facts c Hh) as (-> & _).
  - done.
  - done.
Qed.

(** *** [PyLong_FromString] in base 16 against the syntax of literals *)

Lemma PyLong_FromString_complete t v :
  base16_literal Py_ISSPACE t v → PyLong_FromString t 16 = Ret v.
Proof.
  intros (lead & sign & pre & body & trail & -> & Hlead & Htrail & Hs & Hp & Hb & ->).
  pose proof (stops_space trail Htrail) as Hstop.
  destruct (skip_prefix_literal pre body trail Hp Hb Hstop) as [Hhead Hpre].
  destruct (read_sign_literal sign _ Hs Hhead) as [Hskip Hsign].
  unfold PyLong_FromString.
  rewrite skip_space_append, Hskip, Hsign, Hpre by done.
  rewrite starts_with_underscore_head
    by (by apply head_is_append, grouped_head).
  destruct (scan_grouped body Hb trail "000"%char 0 0%nat Hstop) as (n & -> & Hn).
  destruct n as [|n]; [lia|]. simpl.
  by rewrite (proj1 (skip_space_all trail) Htrail).
Qed.

Lemma PyLong_FromString_sound t v :
  PyLong_FromString t 16 = Ret v → base16_literal Py_ISSPACE t v.
Proof.
  unfold PyLong_FromString.
  destruct (skip_space_split t) as (lead & Ht & Hlead).
  destruct (read_sign_split (skip_space t)) as (sign & Hs & Ht1 & Hsign).
  destruct (read_sign (skip_space t)) as [sg t2]. simpl in Ht1, Hsign.
  destruct (skip_prefix_split t2) as (pre & Hp & Ht2).
  destruct (starts_with_underscore (skip_prefix 16 t2)) eqn:Hund; [discriminate|].
  destruct (scan_digits 16 (skip_prefix 16 t2) "000"%char 0 0%nat)
    as [[[v' n] rest]|] eqn:Hscan; [|discriminate].
  destruct n as [|n]; [discriminate|]. simpl.
  destruct (skip_space rest) eqn:Hrest; [|discriminate].
  intros [= <-].
  destruct (scan_sound _ _ _ _ _ _ _ Hscan) as (body & Ht3 & -> & Hbody).
  exists lead, sign, pre, body, rest.
  assert (grouped_digits body) as Hg.
  { destruct Hbody as [(_ & Hn & _)|[[Hg _]|(g & -> & _)]]; [lia|done|].
    rewrite Ht3 in Hund. discriminate Hund. }
  repeat split; try done.
  - rewrite Ht at 1. rewrite Ht1 at 1. rewrite Ht2 at 1. by rewrite Ht3 at 1.
  - by apply skip_space_all.
  - by rewrite Hsign.
Qed.


End Parsing.

Section Transformation.
Implicit Types (s t a b : string) (c : ascii).

Local Ltac by_cases c :=
  destruct c as [[] [] [] [] [] [] [] []]; vm_compute;
  first [ discriminate
        | let H := fresh in intros H; discriminate H
        | intros; repeat split; reflexivity ].

Lemma core_char_facts c :
  is_core c = true →
  (nat_of_ascii c <? 127)%nat = true ∧ (nat_of_ascii c <? 128)%nat = true
  ∧ Py_UNICODE_ISSPACE_high c = false ∧ to_blank c = c
  ∧ bool_decide (c = "?"%char) = false.
Proof. by_cases c. Qed.

Lemma low_char_facts c :
  (nat_of_ascii c <? 127)%nat = true →
  Py_UNICODE_ISSPACE_high c = false ∧ to_blank c = c.
Proof. by_cases c. Qed.

Lemma high_space_facts c :
  Py_UNICODE_ISSPACE_high c = true →
  (nat_of_ascii c <? 127)%nat = false ∧ to_blank c = " "%char
  ∧ is_space c = true.
Proof. by_cases c. Qed.

Lemma to_blank_space c :
  Py_ISSPACE (to_blank c) = true → is_space c = true.
Proof. by_cases c. Qed.

Lemma to_blank_core c : is_core (to_blank c) = true → to_blank c = c.
Proof. by_cases c. Qed.

Lemma space_to_blank c :
  is_space c = true → is_kept c = true ∧ Py_ISSPACE (to_blank c) = true.
Proof. by_cases c. Qed.

Lemma space_ascii c :
  is_space c = true → (nat_of_ascii c <? 128)%nat = true → Py_ISSPACE c = true.
Proof.
  destruct c as [[] [] [] [] [] [] [] []]; vm_compute; intros H1 H2;
    first [discriminate H1 | discriminate H2 | reflexivity].
Qed.

Lemma is_ascii_all_chars s :
  is_ascii s = all_chars (fun c => (nat_of_ascii c <? 128)%nat) s.
Proof.
  unfold is_ascii. induction s as [|c s IH]; [done|]. simpl. by rewrite IH.
Qed.

Lemma map_chars_append f s t :
  map_chars f (s +:+ t) = map_chars f s +:+ map_chars f t.
Proof. induction s as [|c s IH]; [done|]. simpl. by rewrite IH. Qed.

Lemma map_chars_split f s : ∀ a b,
  map_chars f s = a +:+ b →
  ∃ a' b', s = a' +:+ b' ∧ map_chars f a' = a ∧ map_chars f b' = b.
Proof.
  induction s as [|c s IH]; intros a b.
  - destruct a; [|discriminate]. intros H. change ("" = b) in H. subst b.
    by exists "", "".
  - destruct a as [|d a].
    + intros H. change (map_chars f (String c s) = b) in H. subst b.
      by exists "", (String c s).
    + rewrite append_cons. simpl. intros [= <- H].
      destruct (IH _ _ H) as (a' & b' & -> & <- & <-).
      by exists (String c a'), b'.
Qed.

Lemma map_to_blank_core s :
  all_chars is_core (map_chars to_blank s) = true → map_chars to_blank s = s.
Proof.
  induction s as [|c s IH]; [done|]. simpl.
  intros [Hc Hs]%andb_true_iff. by rewrite (to_blank_core c Hc), IH.
Qed.

Lemma map_to_blank_core_id s :
  all_chars is_core s = true → map_chars to_blank s = s.
Proof.
  induction s as [|c s IH]; [done|]. simpl.
  intros [Hc Hs]%andb_true_iff.
  destruct (core_char_facts c Hc) as (_ & _ & _ & -> & _). by rewrite IH.
Qed.

Lemma map_to_blank_space s :
  all_chars Py_ISSPACE (map_chars to_blank s) = true →
  all_chars is_space s = true.
Proof.
  induction s as [|c s IH]; [done|]. simpl.
  intros [Hc Hs]%andb_true_iff. by rewrite (to_blank_space c Hc), IH.
Qed.

Lemma space_map_to_blank s :
  all_chars is_space s = true →
  all_chars is_kept s = true
  ∧ all_chars Py_ISSPACE (map_chars to_blank s) = true.
Proof.
  induction s as [|c s IH]; [done|]. simpl.
  intros [Hc Hs]%andb_true_iff.
  destruct (space_to_blank c Hc) as [-> ->]. by apply IH.
Qed.

Lemma core_kept s : all_chars is_core s = true → all_chars is_kept s = true.
Proof.
  apply all_chars_impl. intros c Hc. unfold is_kept.
  by destruct (core_char_facts c Hc) as (-> & _).
Qed.

Lemma transform_tail_kept s :
  all_chars is_kept s = true → transform_tail s = map_chars to_blank s.
Proof.
  induction s as [|c s IH]; [done|].
  change (transform_tail (String c s))
    with (if (nat_of_ascii c <? 127)%nat then String c (transform_tail s)
          else if Py_UNICODE_ISSPACE_high c
               then String " " (transform_tail s) else "?").
  change (all_chars is_kept (String c s))
    with (is_kept c && all_chars is_kept s).
  intros [Hc Hs]%andb_true_iff. rewrite (IH Hs). unfold is_kept in Hc.
  change (map_chars to_blank (String c s))
    with (String (to_blank c) (map_chars to_blank s)).
  destruct (nat_of_ascii c <? 127)%nat eqn:E.
  - by destruct (low_char_facts c E) as (_ & ->).
  - simpl in Hc. rewrite Hc.
    by destruct (high_space_facts c Hc) as (_ & -> & _).
Qed.

(** A transformed string with no question mark in it was not cut. *)
Lemma transform_tail_uncut s :
  all_chars (fun c => negb (bool_decide (c = "?"%char))) (transform_tail s) = true →
  all_chars is_kept s = true.
Proof.
  induction s as [|c s IH]; [done|].
  change (transform_tail (String c s))
    with (if (nat_of_ascii c <? 127)%nat then String c (transform_tail s)
          else if Py_UNICODE_ISSPACE_high c
               then String " " (transform_tail s) else "?").
  change (all_chars is_kept (String c s))
    with (is_kept c && all_chars is_kept s).
  unfold is_kept at 1.
  destruct (nat_of_ascii c <? 127)%nat eqn:E.
  - intros [_ Hs]%andb_true_iff. by rewrite IH.
  - destruct (Py_UNICODE_ISSPACE_high c).
    + intros [_ Hs]%andb_true_iff. by rewrite IH.
    + intros H. discriminate H.
Qed.

(** The characters of a literal. *)
Lemma sign_core sign : sign ∈ [""; "+"; "-"] → all_chars is_core sign = true.
Proof.
  intros H. repeat (apply elem_of_cons in H as [->|H]); try reflexivity.
  by apply elem_of_nil in H.
Qed.

Lemma prefix_core pre :
  pre ∈ [""; "0x"; "0X"; "0x_"; "0X_"] → all_chars is_core pre = true.
Proof.
  intros H. repeat (apply elem_of_cons in H as [->|H]); try reflexivity.
  by apply elem_of_nil in H.
Qed.

Lemma grouped_core body : grouped_digits body → all_chars is_core body = true.
Proof.
  assert (∀ c, is_hex c = true → is_core c = true) as Hh.
  { intros c Hc. unfold is_core. by rewrite Hc. }
  induction 1 as [c Hc|c s Hc _ IH|c s Hc _ IH]; simpl;
    rewrite (Hh c Hc); simpl; done.
Qed.

Lemma literal_weaken (P Q : ascii → bool) s v :
  (∀ c, P c = true → Q c = true) →
  base16_literal P s v → base16_literal Q s v.
Proof.
  intros HPQ (lead & sign & pre & body & trail & -> & Hl & Ht & Hs & Hp & Hb & ->).
  exists lead, sign, pre, body, trail.
  repeat split; try done; by eapply all_chars_impl.
Qed.

Lemma literal_no_question_mark s v :
  base16_literal Py_ISSPACE s v →
  all_chars (fun c => negb (bool_decide (c = "?"%char))) s = true.
Proof.
  intros (lead & sign & pre & body & trail & -> & Hl & Ht & Hs & Hp & Hb & ->).
  assert (∀ t, all_chars Py_ISSPACE t = true →
               all_chars (fun c => negb (bool_decide (c = "?"%char))) t = true)
    as Hsp.
  { intros t. apply all_chars_impl. intros c Hc.
    destruct c as [[] [] [] [] [] [] [] []]; vm_compute in Hc;
      first [discriminate Hc | reflexivity]. }
  assert (∀ t, all_chars is_core t = true →
               all_chars (fun c => negb (bool_decide (c = "?"%char))) t = true)
    as Hcore.
  { intros t. apply all_chars_impl. intros c Hc.
    by destruct (core_char_facts c Hc) as (_ & _ & _ & _ & ->). }
  rewrite !all_chars_append.
  rewrite (Hsp lead), (Hsp trail), (Hcore sign), (Hcore pre), (Hcore body);
    auto using sign_core, prefix_core, grouped_core.
Qed.

(** The syntax read after the transformation is the syntax of literals with
    the white space of the Latin-1 block. *)
Lemma transform_literal s v :
  base16_literal Py_ISSPACE (TransformDecimalAndSpaceToASCII s) v
  ↔ base16_literal is_space s v.
Proof.
  unfold TransformDecimalAndSpaceToASCII.
  destruct (is_ascii s) eqn:Hascii; split.
  - apply literal_weaken. intros c Hc.
    by destruct (space_char_facts c Hc) as (_ & _ & _ & _ & _ & -> & _).
  - intros (lead & sign & pre & body & trail & -> & Hl & Ht & Hs & Hp & Hb & ->).
    rewrite is_ascii_all_chars, !all_chars_append in Hascii.
    apply andb_true_iff in Hascii as [Hal Hascii].
    apply andb_true_iff in Hascii as [_ Hascii].
    apply andb_true_iff in Hascii as [_ Hascii].
    apply andb_true_iff in Hascii as [_ Hat].
    assert (∀ t, all_chars is_space t = true →
                 all_chars (fun c => (nat_of_ascii c <? 128)%nat) t = true →
                 all_chars Py_ISSPACE t = true) as Hsp.
    { intros t. induction t as [|c t IH]; [done|]. simpl.
      intros [Hc1 H1]%andb_true_iff [Hc2 H2]%andb_true_iff.
      by rewrite (space_ascii c Hc1 Hc2), IH. }
    exists lead, sign, pre, body, trail. repeat split; auto.
  - intros Hlit. pose proof (literal_no_question_mark _ _ Hlit) as Hq.
    apply transform_tail_uncut in Hq. rewrite (transform_tail_kept s Hq) in Hlit.
    destruct Hlit as (lead & sign & pre & body & trail & Heq & Hl & Ht & Hs & Hp & Hb & ->).
    apply map_chars_split in Heq as (lead' & r1 & -> & <- & Heq).
    apply map_chars_split in Heq as (sign' & r2 & -> & <- & Heq).
    apply map_chars_split in Heq as (pre' & r3 & -> & <- & Heq).
    apply map_chars_split in Heq as (body' & trail' & -> & <- & <-).
    pose proof (map_to_blank_core sign' (sign_core _ Hs)) as Es.
    pose proof (map_to_blank_core pre' (prefix_core _ Hp)) as Ep.
    pose proof (map_to_blank_core body' (grouped_core _ Hb)) as Eb.
    rewrite Es in Hs |- *. rewrite Ep in Hp. rewrite Eb in Hb |- *.
    exists lead', sign', pre', body', trail'.
    repeat split; auto using map_to_blank_space.
  - intros (lead & sign & pre & body & trail & -> & Hl & Ht & Hs & Hp & Hb & ->).
    destruct (space_map_to_blank lead Hl) as [Hkl Hbl].
    destruct (space_map_to_blank trail Ht) as [Hkt Hbt].
    rewrite transform_tail_kept.
    2:{ rewrite !all_chars_append, Hkl, Hkt.
        rewrite (core_kept sign), (core_kept pre), (core_kept body);
          auto using sign_core, prefix_core, grouped_core. }
    rewrite !map_chars_append.
    rewrite (map_to_blank_core_id sign), (map_to_blank_core_id pre),
      (map_to_blank_core_id body)
      by auto using sign_core, prefix_core, grouped_core.
    exists (map_chars to_blank lead), sign, pre, body, (map_chars to_blank trail).
    repeat split; auto.
Qed.

(** [int(s, 16)] succeeds with [v] exactly on the literals of value [v]. *)
Lemma decode_id_literal s v :
  decode_id s = Ret v ↔ base16_literal is_space s v.
Proof.
  unfold decode_id, int_. rewrite <- transform_literal. split.
  - apply PyLong_FromString_sound.
  - apply PyLong_FromString_complete.
Qed.


Lemma hex_digits_grouped s : hex_digits s → grouped_digits s.
Proof.
  intros [Hne Hall]. induction s as [|c s IH]; [done|].
  simpl in Hall. apply andb_true_iff in Hall as [Hc Hs].
  destruct s as [|c' s']; [by constructor|].
  apply grouped_digit; [done|]. by apply IH.
Qed.

(** A run of hexadecimal digits, with the prefix or without, decodes to its
    value. *)
Lemma decode_id_hex_digits s :
  hex_digits s →
  decode_id s = Ret (hex_value s 0)
  ∧ decode_id ("0x" +:+ s) = Ret (hex_value s 0).
Proof.
  intros Hs%hex_digits_grouped. split; apply decode_id_literal.
  - exists "", "", "", s, "". rewrite append_nil_r.
    repeat split; try done; try set_solver.
    simpl. by destruct (hex_value s 0).
  - exists "", "", "0x", s, "". rewrite append_nil_r.
    repeat split; try done; try set_solver.
    simpl. by destruct (hex_value s 0).
Qed.

End Transformation.

Lemma decode_encoded width n :
  0 ≤ n → decode_id ("0x" +:+ format_0x width n) = Ret n.
Proof.
  intros Hn. rewrite format_0x_nonneg by done.
  assert (hex_digits (zero_pad width (format_x n))) as Hd.
  { split.
    - pose proof (zero_pad_nonempty width (format_x n) (format_x_nonempty n)) as H.
      intros E. rewrite E in H. simpl in H. lia.
    - eapply all_chars_impl; [apply lower_hex_is_hex|].
      apply zero_pad_lower_hex, format_x_lower_hex. }
  destruct (decode_id_hex_digits _ Hd) as [_ ->].
  by rewrite zero_pad_value, format_x_value.
Qed.

(** C2: decoding the encoded form of a span id below [2^64], or of a trace
    id below [2^128], gives the id back. *)
Theorem decode_encode_round_trip :
  (∀ x, 0 ≤ x < 2 ^ 64 → decode_id (encode_span_id x) = Ret x)
  ∧ (∀ x, 0 ≤ x < 2 ^ 128 → decode_id (encode_trace_id x) = Ret x).
Proof.
  split; intros x [Hx _].
  - by apply (decode_encoded 16).
  - by apply (decode_encoded 32).
Qed.

Example decode_encode_sample :
  decode_id (encode_span_id 48879) = Ret 48879
  ∧ decode_id (encode_trace_id (2 ^ 127 + 5)) = Ret (2 ^ 127 + 5).
Proof. split; vm_compute; reflexivity. Qed.



Example decode_id_rejects :
  decode_id "xyz" = Raise ValueError ∧ decode_id "" = Raise ValueError
  ∧ decode_id "0x" = Raise ValueError ∧ decode_id "f__f" = Raise ValueError
  ∧ decode_id "ff_" = Raise ValueError ∧ decode_id "_ff" = Raise ValueError
  ∧ decode_id "0x-1" = Raise ValueError.
Proof. repeat split; vm_compute; reflexivity. Qed.

(** *** Identifiers of any size, and the place of every digit *)

Section Digits.
Implicit Types (s a b : string) (c : ascii).

Lemma digit_value_nonneg c : 0 ≤ digit_value c.
Proof.
  destruct c as [[] [] [] [] [] [] [] []]; vm_compute; discriminate.
Qed.

Lemma lower_hex_digit c : is_lower_hex c = true → c = hex_digit (digit_value c).
Proof.
  destruct c as [[] [] [] [] [] [] [] []]; vm_compute; intros H;
    first [discriminate H | reflexivity].
Qed.

(** The value of a run of digits, by position. *)
Lemma hex_value_positional s : ∀ acc,
  all_chars is_hex s = true →
  hex_value s acc = acc * 16 ^ Z.of_nat (String.length s) + hex_value s 0
  ∧ 0 ≤ hex_value s 0 < 16 ^ Z.of_nat (String.length s).
Proof.
  induction s as [|c s IH]; intros acc Hs.
  { simpl. lia. }
  simpl in Hs. apply andb_true_iff in Hs as [Hc Hs].
  destruct (hex_char_facts c Hc) as (Hu & _).
  pose proof (digit_value_nonneg c) as Hd0.
  assert (digit_value c < 16) as Hd1 by (by apply Z.ltb_lt).
  simpl hex_value. rewrite Hu.
  destruct (IH (acc * 16 + digit_value c) Hs) as [-> _].
  destruct (IH (0 * 16 + digit_value c) Hs) as [-> [Hlo Hhi]].
  change (String.length (String c s)) with (S (String.length s)).
  rewrite Nat2Z.inj_succ, Z.pow_succ_r by lia.
  split; [ring|]. nia.
Qed.

Lemma hex_value_digit_at a c b :
  all_chars is_hex (a +:+ String c b) = true →
  (hex_value (a +:+ String c b) 0 / 16 ^ Z.of_nat (String.length b)) `mod` 16
  = digit_value c.
Proof.
  rewrite all_chars_append. simpl.
  intros [Ha [Hc Hb]%andb_true_iff]%andb_true_iff.
  destruct (hex_char_facts c Hc) as (Hu & _).
  rewrite hex_value_append. simpl hex_value. rewrite Hu.
  destruct (hex_value_positional b (hex_value a 0 * 16 + digit_value c) Hb)
    as [-> [Hlo Hhi]].
  assert (0 < 16 ^ Z.of_nat (String.length b)) as Hpos by lia.
  rewrite Z.div_add_l by lia. rewrite (Z.div_small (hex_value b 0)) by lia.
  rewrite Z.add_0_r, Z.add_comm, Z.mod_add by lia.
  apply Z.mod_small. split; [apply digit_value_nonneg|by apply Z.ltb_lt].
Qed.

Lemma string_split_at s : ∀ i,
  (i < String.length s)%nat →
  ∃ a c b, s = a +:+ String c b ∧ String.length a = i
    ∧ String.get i s = Some c.
Proof.
  induction s as [|d s IH]; intros i Hi; [simpl in Hi; lia|].
  destruct i as [|i].
  - by exists "", d, s.
  - destruct (IH i) as (a & c & b & -> & <- & Hg); [simpl in Hi; lia|].
    exists (String d a), c, b. by rewrite append_cons.
Qed.

(** The character at position [i] of a padded rendering is the digit of
    weight [16 ^ (width - 1 - i)]. *)
Lemma format_0x_digit width n i :
  0 ≤ n < 16 ^ Z.of_nat width → (i < width)%nat →
  String.get i (format_0x width n)
  = Some (hex_digit ((n / 16 ^ Z.of_nat (width - 1 - i)) `mod` 16)).
Proof.
  intros Hn Hi.
  destruct (format_0x_wire width n ltac:(lia) Hn) as (ds & E & Hlen & Hlow & Hval).
  rewrite !append_cons, !append_nil_l in E. injection E as <-.
  destruct (string_split_at (format_0x width n) i ltac:(lia))
    as (a & c & b & E & Ha & ->).
  rewrite E in Hlen, Hlow, Hval. f_equal.
  assert (String.length b = (width - 1 - i)%nat) as <-.
  { rewrite length_append in Hlen. simpl in Hlen. lia. }
  rewrite <- Hval, hex_value_digit_at.
  - apply lower_hex_digit. rewrite all_chars_append in Hlow. simpl in Hlow.
    by apply andb_true_iff in Hlow as [_ [? _]%andb_true_iff].
  - eapply all_chars_impl; [apply lower_hex_is_hex|done].
Qed.

End Digits.

(** After the prefix, the digits of an identifier stand most significant
    first: the character at position [2 + i] is the digit of weight
    [16 ^ (15 - i)] of a span id, and of weight [16 ^ (31 - i)] of a trace
    id. *)
Theorem encoded_digits_by_position (id : Z) (i : nat) :
  (0 ≤ id < 2 ^ 64 → (i < 16)%nat →
     String.get (2 + i) (encode_span_id id)
     = Some (hex_digit ((id / 16 ^ Z.of_nat (15 - i)) `mod` 16)))
  ∧ (0 ≤ id < 2 ^ 128 → (i < 32)%nat →
       String.get (2 + i) (encode_trace_id id)
       = Some (hex_digit ((id / 16 ^ Z.of_nat (31 - i)) `mod` 16))).
Proof.
  split; intros Hid Hi.
  - apply (format_0x_digit 16 id i); [exact Hid|exact Hi].
  - apply (format_0x_digit 32 id i); [exact Hid|exact Hi].
Qed.

Example encoded_digits_sample :
  String.get 17 (encode_span_id 48879) = Some "f"%char
  ∧ String.get 14 (encode_span_id 48879) = Some "b"%char
  ∧ String.get 13 (encode_span_id 48879) = Some "0"%char.
Proof. repeat split. Qed.

(** The encoders never cut an identifier: whatever its size, a
    non-negative integer decodes to itself, so different integers have
    different encodings. *)
Theorem encoding_is_injective (x y : Z) :
  0 ≤ x → 0 ≤ y →
  decode_id (encode_span_id x) = Ret x
  ∧ decode_id (encode_trace_id x) = Ret x
  ∧ (encode_span_id x = encode_span_id y → x = y)
  ∧ (encode_trace_id x = encode_trace_id y → x = y).
Proof.
  intros Hx Hy.
  pose proof (decode_encoded 16 x Hx) as Hsx.
  pose proof (decode_encoded 32 x Hx) as Htx.
  pose proof (decode_encoded 16 y Hy) as Hsy.
  pose proof (decode_encoded 32 y Hy) as Hty.
  repeat split; try done.
  - intros E. unfold encode_span_id, format_span_id in E.
    rewrite E in Hsx. congruence.
  - intros E. unfold encode_trace_id, format_trace_id in E.
    rewrite E in Htx. congruence.
Qed.

Lemma encoding_is_injective_witness :
  decode_id (encode_span_id (2 ^ 64 + 5)) = Ret (2 ^ 64 + 5)
  ∧ decode_id (encode_trace_id (2 ^ 64 + 5)) = Ret (2 ^ 64 + 5)
  ∧ (encode_span_id (2 ^ 64 + 5) = encode_span_id 5 → 2 ^ 64 + 5 = 5)
  ∧ (encode_trace_id (2 ^ 64 + 5) = encode_trace_id 5 → 2 ^ 64 + 5 = 5).
Proof. apply (encoding_is_injective (2 ^ 64 + 5) 5); lia. Defined.

Lemma decode_encoded_negative width n :
  n < 0 →
  ∃ digits, "0x" +:+ format_0x width n = "0x-" +:+ digits
    ∧ decode_id ("0x" +:+ format_0x width n) = Raise ValueError.
Proof.
  intros Hn. unfold format_0x. rewrite (proj2 (Z.ltb_lt n 0) Hn).
  set (digits := zero_pad (width - 1) (format_x (- n))).
  exists digits. split; [done|].
  assert (all_chars is_lower_hex digits = true) as Hlow.
  { apply zero_pad_lower_hex, format_x_lower_hex. }
  unfold decode_id, int_, TransformDecimalAndSpaceToASCII.
  assert (is_ascii ("0x" +:+ String "-" digits) = true) as ->.
  { rewrite is_ascii_all_chars, !append_cons, append_nil_l. simpl.
    eapply all_chars_impl; [apply lower_hex_is_ascii|done]. }
  rewrite !append_cons, append_nil_l. reflexivity.
Qed.

(** A negative integer is encoded with its sign after the prefix, and the
    result is not read back: decoding it raises [ValueError]. *)
Theorem negative_ids_do_not_decode (id : Z) :
  id < 0 →
  (∃ digits, encode_span_id id = "0x-" +:+ digits)
  ∧ decode_id (encode_span_id id) = Raise ValueError
  ∧ (∃ digits, encode_trace_id id = "0x-" +:+ digits)
  ∧ decode_id (encode_trace_id id) = Raise ValueError.
Proof.
  intros Hid.
  destruct (decode_encoded_negative 16 id Hid) as (ds & Es & Hs).
  destruct (decode_encoded_negative 32 id Hid) as (dt & Et & Ht).
  repeat split; eauto.
Qed.

Lemma negative_ids_do_not_decode_witness :
  (∃ digits, encode_span_id (-255) = "0x-" +:+ digits)
  ∧ decode_id (encode_span_id (-255)) = Raise ValueError
  ∧ (∃ digits, encode_trace_id (-255) = "0x-" +:+ digits)
  ∧ decode_id (encode_trace_id (-255)) = Raise ValueError.
Proof. apply (negative_ids_do_not_decode (-255)). lia. Defined.

(** *** The cache of the encoders *)

(** Started from a cache that holds a result of [f], a cached call returns
    what [f] returns and leaves such a cache behind. *)
Lemma lru_cache1_transparent {A B} `{EqDecision A} (f : A → B)
    (cache : option (A * B)) (x : A) :
  cache_consistent f cache →
  (lru_cache1 f cache x).1 = f x
  ∧ cache_consistent f (lru_cache1 f cache x).2.
Proof.
  unfold lru_cache1, cache_consistent.
  destruct cache as [[k v]|]; [|done].
  intros ->. destruct (decide (k = x)) as [->|]; done.
Qed.

(** Whatever earlier calls left in their caches, the cached encoders
    return what the encoders return, and leave caches that can be used
    again. *)
Theorem cached_encoders_agree (span_cache trace_cache : option (Z * string))
    (id : Z) :
  cache_consistent encode_span_id span_cache →
  cache_consistent encode_trace_id trace_cache →
  (encode_span_id_cached span_cache id).1 = encode_span_id id
  ∧ (encode_trace_id_cached trace_cache id).1 = encode_trace_id id
  ∧ cache_consistent encode_span_id (encode_span_id_cached span_cache id).2
  ∧ cache_consistent encode_trace_id (encode_trace_id_cached trace_cache id).2.
Proof.
  intros Hs Ht.
  destruct (lru_cache1_transparent encode_span_id span_cache id Hs) as [? ?].
  destruct (lru_cache1_transparent encode_trace_id trace_cache id Ht) as [? ?].
  done.
Qed.

Lemma cached_encoders_agree_witness :
  (encode_span_id_cached (Some (255, encode_span_id 255)) 7).1
  = encode_span_id 7
  ∧ (encode_trace_id_cached None 7).1 = encode_trace_id 7
  ∧ cache_consistent encode_span_id
      (encode_span_id_cached (Some (255, encode_span_id 255)) 7).2
  ∧ cache_consistent encode_trace_id (encode_trace_id_cached None 7).2.
Proof.
  apply (cached_encoders_agree (Some (255, encode_span_id 255)) None 7);
    reflexivity.
Defined.

(** ** Request identifiers *)

Section RequestIds.

(** The bits of the constants of [uuid.UUID.__init__]. *)
Lemma small_testbit (k bound : Z) (bits : Z → bool) (i : Z) :
  0 ≤ k < 2 ^ bound → 0 ≤ bound →
  (∀ j, 0 ≤ j < bound → Z.testbit k j = bits j) →
  (∀ j, ¬ (0 ≤ j < bound) → bits j = false) →
  Z.testbit k i = bits i.
Proof.
  intros Hk Hb Hin Hout.
  destruct (decide (0 ≤ i < bound)) as [Hi|Hi]; [by apply Hin|].
  rewrite (Hout i Hi).
  destruct (decide (i < 0)) as [Hneg|Hpos]; [by apply Z.testbit_neg_r|].
  destruct (decide (k = 0)) as [->|Hk0]; [apply Z.bits_0|].
  apply Z.bits_above_log2; [lia|].
  assert (Z.log2 k < bound); [|lia].
  apply Z.log2_lt_pow2; lia.
Qed.

Local Ltac enumerate j H :=
  let E := fresh in
  assert (j = 0 ∨ j = 1 ∨ j = 2 ∨ j = 3 ∨ j = 4 ∨ j = 5 ∨ j = 6 ∨ j = 7
          ∨ j = 8 ∨ j = 9 ∨ j = 10 ∨ j = 11 ∨ j = 12 ∨ j = 13 ∨ j = 14
          ∨ j = 15) as E by lia;
  clear H; repeat destruct E as [->|E]; try subst j.

Local Ltac compare_cases :=
  repeat match goal with
         | |- context [?a =? ?b] => destruct (Z.eqb_spec a b)
         | |- context [?a <=? ?b] => destruct (Z.leb_spec a b)
         end.

Lemma testbit_49152 i : Z.testbit 49152 i = (i =? 14) || (i =? 15).
Proof.
  apply (small_testbit 49152 16 (λ j, (j =? 14) || (j =? 15)));
    [lia | lia | intros j Hj; enumerate j Hj; reflexivity
    | intros j Hj; compare_cases; simpl; lia].
Qed.

Lemma testbit_32768 i : Z.testbit 32768 i = (i =? 15).
Proof.
  apply (small_testbit 32768 16 (λ j, j =? 15));
    [lia | lia | intros j Hj; enumerate j Hj; reflexivity
    | intros j Hj; compare_cases; simpl; lia].
Qed.

Lemma testbit_61440 i : Z.testbit 61440 i = (12 <=? i) && (i <=? 15).
Proof.
  apply (small_testbit 61440 16 (λ j, (12 <=? j) && (j <=? 15)));
    [lia | lia | intros j Hj; enumerate j Hj; reflexivity
    | intros j Hj; compare_cases; simpl; lia].
Qed.

Lemma testbit_4 i : Z.testbit 4 i = (i =? 2).
Proof.
  apply (small_testbit 4 16 (λ j, j =? 2));
    [lia | lia | intros j Hj; enumerate j Hj; reflexivity
    | intros j Hj; compare_cases; simpl; lia].
Qed.

(** Bit by bit: the version number 4 in bits 76 to 79, the variant [10] in
    bits 63 and 62, and the random bits everywhere else. *)
Lemma uuid4_int_testbit random i :
  0 ≤ i →
  Z.testbit (uuid4_int random) i
  = if (76 <=? i) && (i <=? 79) then i =? 78
    else if (62 <=? i) && (i <=? 63) then i =? 63
    else Z.testbit random i.
Proof.
  intros Hi. unfold uuid4_int.
  rewrite Z.lor_spec, Z.land_spec, Z.lor_spec, Z.land_spec.
  rewrite !Z.lnot_spec, !Z.shiftl_spec by lia.
  rewrite testbit_49152, testbit_32768, testbit_61440, testbit_4.
  compare_cases; simpl; try lia;
    rewrite ?andb_true_r, ?andb_false_r, ?orb_false_r, ?orb_true_r; done.
Qed.

Lemma uuid4_int_outside random i :
  0 ≤ i → ¬ (76 ≤ i ≤ 79) → ¬ (62 ≤ i ≤ 63) →
  Z.testbit (uuid4_int random) i = Z.testbit random i.
Proof.
  intros Hi H1 H2. rewrite uuid4_int_testbit by done.
  compare_cases; simpl; try lia; done.
Qed.

Lemma uuid4_int_range random :
  0 ≤ random < 2 ^ 128 → 0 ≤ uuid4_int random < 2 ^ 128.
Proof.
  intros Hr.
  assert (uuid4_int random = Z.land (uuid4_int random) (Z.ones 128)) as E.
  { apply Z.bits_inj'. intros i Hi.
    rewrite Z.land_spec, Z.testbit_ones_nonneg by lia.
    destruct (decide (i < 128)) as [Hlt|Hge].
    - rewrite (proj2 (Z.ltb_lt i 128) Hlt). by rewrite andb_true_r.
    - rewrite (proj2 (Z.ltb_ge i 128)) by lia. rewrite andb_false_r.
      rewrite uuid4_int_outside by lia.
      destruct (decide (random = 0)) as [->|Hne]; [apply Z.bits_0|].
      apply Z.bits_above_log2; [lia|].
      assert (Z.log2 random < 128); [|lia].
      apply Z.log2_lt_pow2; lia. }
  rewrite Z.land_ones in E by lia. rewrite E.
  apply Z.mod_pos_bound. lia.
Qed.

Lemma uuid4_version_digit random :
  (uuid4_int random / 16 ^ 19) `mod` 16 = 4.
Proof.
  change (16 ^ 19) with (2 ^ 76). change 16 with (2 ^ 4).
  apply Z.bits_inj'. intros i Hi.
  destruct (decide (i < 4)) as [Hlt|Hge].
  - rewrite Z.mod_pow2_bits_low, Z.div_pow2_bits by lia.
    rewrite uuid4_int_testbit, testbit_4 by lia.
    compare_cases; simpl; try lia; done.
  - rewrite Z.mod_pow2_bits_high, testbit_4 by lia.
    compare_cases; simpl; try lia; done.
Qed.

Lemma uuid4_variant_digit random :
  8 ≤ (uuid4_int random / 16 ^ 15) `mod` 16 ≤ 11.
Proof.
  set (v := (uuid4_int random / 16 ^ 15) `mod` 16).
  assert (0 ≤ v < 16) as Hv by (apply Z.mod_pos_bound; lia).
  assert (∀ i, 0 ≤ i < 4 → Z.testbit v i = Z.testbit (uuid4_int random) (i + 60))
    as Hbits.
  { intros i Hi. subst v. change (16 ^ 15) with (2 ^ 60).
    change 16 with (2 ^ 4).
    by rewrite Z.mod_pow2_bits_low, Z.div_pow2_bits by lia. }
  assert (Z.testbit (uuid4_int random) 63 = true) as E63.
  { rewrite uuid4_int_testbit by lia. reflexivity. }
  assert (Z.testbit (uuid4_int random) 62 = false) as E62.
  { rewrite uuid4_int_testbit by lia. reflexivity. }
  pose proof (Hbits 3 ltac:(lia)) as H3.
  pose proof (Hbits 2 ltac:(lia)) as H2.
  change (3 + 60) with 63 in H3. change (2 + 60) with 62 in H2.
  rewrite E63 in H3. rewrite E62 in H2.
  apply Z.testbit_true in H3; [|lia]. apply Z.testbit_false in H2; [|lia].
  change (2 ^ 3) with 8 in H3. change (2 ^ 2) with 4 in H2.
  Z.to_euclidean_division_equations. lia.
Qed.

(** A request id is 32 lowercase hexadecimal digits with no prefix; the
    thirteenth is the version number 4 and the seventeenth one of 8, 9, a
    and b; read as a hexadecimal number by [decode_id] it gives the integer
    of the UUID, in which every bit outside the version and variant fields
    is a bit of the random bytes. *)
Theorem generate_request_id_shape (random : Z) :
  0 ≤ random < 2 ^ 128 →
  String.length (generate_request_id random) = 32%nat
  ∧ all_chars is_lower_hex (generate_request_id random) = true
  ∧ String.get 12 (generate_request_id random) = Some "4"%char
  ∧ (∃ c, String.get 16 (generate_request_id random) = Some c
          ∧ c ∈ ["8"; "9"; "a"; "b"]%char)
  ∧ decode_id (generate_request_id random) = Ret (uuid4_int random)
  ∧ (∀ i, 0 ≤ i → ¬ (76 ≤ i ≤ 79) → ¬ (62 ≤ i ≤ 63) →
          Z.testbit (uuid4_int random) i = Z.testbit random i).
Proof.
  intros Hr. pose proof (uuid4_int_range random Hr) as Hu.
  unfold generate_request_id, uuid_hex.
  destruct (format_0x_wire 32 (uuid4_int random) ltac:(lia) Hu)
    as (ds & E & Hlen & Hlow & Hval).
  rewrite !append_cons, !append_nil_l in E. injection E as <-.
  split; [exact Hlen|]. split; [exact Hlow|]. split; [|split; [|split]].
  - rewrite (format_0x_digit 32 (uuid4_int random) 12 Hu) by lia.
    change (Z.of_nat (32 - 1 - 12)) with 19.
    by rewrite uuid4_version_digit.
  - rewrite (format_0x_digit 32 (uuid4_int random) 16 Hu) by lia.
    change (Z.of_nat (32 - 1 - 16)) with 15.
    pose proof (uuid4_variant_digit random) as Hv.
    eexists. split; [reflexivity|].
    set (v := (uuid4_int random / 16 ^ 15) `mod` 16) in *.
    assert (v = 8 ∨ v = 9 ∨ v = 10 ∨ v = 11) as [->|[->|[->| ->]]] by lia;
      simpl; rewrite !elem_of_cons; auto 6.
  - destruct (decode_id_hex_digits (format_0x 32 (uuid4_int random)))
      as [-> _]; [|by rewrite Hval].
    split.
    + intros E. rewrite E in Hlen. discriminate Hlen.
    + eapply all_chars_impl; [apply lower_hex_is_hex|done].
  - intros i Hi H1 H2. by apply uuid4_int_outside.
Qed.

Lemma generate_request_id_shape_witness :
  String.length (generate_request_id (2 ^ 127 + 12345)) = 32%nat
  ∧ all_chars is_lower_hex (generate_request_id (2 ^ 127 + 12345)) = true
  ∧ String.get 12 (generate_request_id (2 ^ 127 + 12345)) = Some "4"%char
  ∧ (∃ c, String.get 16 (generate_request_id (2 ^ 127 + 12345)) = Some c
          ∧ c ∈ ["8"; "9"; "a"; "b"]%char)
  ∧ decode_id (generate_request_id (2 ^ 127 + 12345))
    = Ret (uuid4_int (2 ^ 127 + 12345))
  ∧ (∀ i, 0 ≤ i → ¬ (76 ≤ i ≤ 79) → ¬ (62 ≤ i ≤ 63) →
          Z.testbit (uuid4_int (2 ^ 127 + 12345)) i
          = Z.testbit (2 ^ 127 + 12345) i).
Proof.
  apply (generate_request_id_shape (2 ^ 127 + 12345)). split; [lia|].
  vm_compute. reflexivity.
Defined.

Example generate_request_id_sample :
  generate_request_id 0 = "00000000000040008000000000000000"
  ∧ generate_request_id (2 ^ 128 - 1) = "ffffffffffff4fffbfffffffffffffff".
Proof. split; vm_compute; reflexivity. Qed.

End RequestIds.

(** ** SpanNameDeduplicator *)

Section DeduplicationFacts.
Implicit Types (st : store) (spans : list nat) (names : list string)
  (cnt : gmap string nat).

Lemma occurrences_nil name : occurrences name [] = 0%nat.
Proof. reflexivity. Qed.

Lemma occurrences_cons name n names :
  occurrences name (n :: names)
  = ((if decide (n = name) then 1 else 0) + occurrences name names)%nat.
Proof.
  unfold occurrences. rewrite filter_cons.
  destruct (decide (n = name)); reflexivity.
Qed.

Lemma occurrences_take_succ name names i :
  names !! i = Some name →
  occurrences name (take (S i) names) = S (occurrences name (take i names)).
Proof.
  revert i. induction names as [|n names IH]; intros [|i] Hi;
    try discriminate.
  - injection Hi as ->. simpl. rewrite occurrences_cons.
    by rewrite decide_True.
  - change (take (S (S i)) (n :: names)) with (n :: take (S i) names).
    change (take (S i) (n :: names)) with (n :: take i names).
    rewrite !occurrences_cons, (IH i Hi). lia.
Qed.

Lemma occurrences_pos name names : name ∈ names → (0 < occurrences name names)%nat.
Proof.
  induction 1 as [|n m names _ IH]; rewrite occurrences_cons.
  - rewrite decide_True by done. lia.
  - lia.
Qed.

Lemma occurrences_NoDup name names :
  NoDup names → (occurrences name names ≤ 1)%nat.
Proof.
  induction 1 as [|n names Hn _ IH]; [rewrite occurrences_nil; lia|].
  rewrite occurrences_cons. destruct (decide (n = name)) as [->|]; [|lia].
  destruct (decide (name ∈ names)) as [Hin|Hout]; [done|].
  assert (occurrences name names = 0%nat); [|lia].
  clear -Hout. induction names as [|m names IH]; [done|].
  rewrite occurrences_cons. apply not_elem_of_cons in Hout as [Hne Hout].
  rewrite decide_False by done. by rewrite IH.
Qed.

(** The counter after a run of increments. *)
Lemma Counter_from_lookup names cnt name :
  default 0%nat
    (foldl (λ c n, <[n := S (default 0%nat (c !! n))]> c) cnt names !! name)
  = (default 0%nat (cnt !! name) + occurrences name names)%nat.
Proof.
  revert cnt. induction names as [|n names IH]; intros cnt; simpl.
  - rewrite occurrences_nil. lia.
  - rewrite IH, occurrences_cons. destruct (decide (n = name)) as [->|Hne].
    + rewrite lookup_insert_eq. simpl. lia.
    + rewrite lookup_insert_ne by done. lia.
Qed.

Lemma Counter_lookup names name :
  default 0%nat (Counter names !! name) = occurrences name names.
Proof. unfold Counter. by rewrite Counter_from_lookup, lookup_empty. Qed.

Lemma duplicated_lookup names name :
  duplicated (Counter names) !! name
  = if decide (1 < occurrences name names)%nat then Some 1%nat else None.
Proof.
  unfold duplicated. rewrite lookup_fmap.
  pose proof (Counter_lookup names name) as Hc.
  destruct (decide (1 < occurrences name names)%nat) as [Hlt|Hge].
  - destruct (Counter names !! name) as [c|] eqn:E; simpl in Hc; [|lia].
    rewrite (map_lookup_filter_Some_2 _ _ name c); [done|done|simpl; lia].
  - destruct (filter _ (Counter names) !! name) as [c|] eqn:E; [|done].
    apply map_lookup_filter_Some in E as [E Hp]. rewrite E in Hc.
    simpl in *. lia.
Qed.

Lemma names_of_agree st st' spans :
  (∀ span, span ∈ spans → st' span = st span) →
  names_of st' spans = names_of st spans.
Proof.
  intros H. unfold names_of. apply list_fmap_ext.
  intros i span Hs. apply H. by apply list_elem_of_lookup_2 in Hs.
Qed.

(** What one iteration does to the counter and to the store. *)
Lemma rename_step cnt st span :
  (∀ n c, cnt !! n = Some c → c ≠ 0%nat) →
  rename (cnt, st) span
  = match cnt !! st span with
    | Some c => (<[st span := S c]> cnt,
                 <[span := indexed_name (st span) c]> st)
    | None => (cnt, st)
    end.
Proof.
  intros Hpos. unfold rename. destruct (cnt !! st span) as [c|] eqn:E; [|done].
  by rewrite bool_decide_true by eauto.
Qed.

(** The loop invariant, stated for the spans still to be visited: spans
    outside the rest keep their name, and the span at position [i] of the
    rest is renamed with the count that its name has reached by then. *)
Lemma rename_loop spans : ∀ cnt st,
  NoDup spans →
  (∀ n c, cnt !! n = Some c → c ≠ 0%nat) →
  (∀ span, span ∉ spans → (foldl rename (cnt, st) spans).2 span = st span)
  ∧ (∀ i span, spans !! i = Some span →
       (foldl rename (cnt, st) spans).2 span
       = match cnt !! st span with
         | Some c =>
             indexed_name (st span)
               (c + occurrences (st span) (take i (names_of st spans)))
         | None => st span
         end).
Proof.
  induction spans as [|h t IH]; intros cnt st Hnd Hpos.
  { split; [done|]. intros i span Hi. discriminate. }
  apply NoDup_cons in Hnd as [Hh Hnd].
  change (foldl rename (cnt, st) (h :: t))
    with (foldl rename (rename (cnt, st) h) t).
  rewrite (rename_step cnt st h Hpos).
  set (acc := match cnt !! st h with Some c => _ | None => _ end).
  assert (Hacc : ∃ cnt1 st1, acc = (cnt1, st1)
            ∧ (∀ n c, cnt1 !! n = Some c → c ≠ 0%nat)
            ∧ (∀ span, span ≠ h → st1 span = st span)
            ∧ st1 h = match cnt !! st h with
                      | Some c => indexed_name (st h) c
                      | None => st h
                      end
            ∧ (∀ name, cnt1 !! name
                 = match cnt !! st h with
                   | Some c => if decide (st h = name) then Some (S c)
                               else cnt !! name
                   | None => cnt !! name
                   end)).
  { subst acc. destruct (cnt !! st h) as [c|] eqn:E.
    - eexists _, _. split; [reflexivity|]. repeat split.
      + intros n c' Hn. apply lookup_insert_Some in Hn as [[_ <-]|[_ Hn]];
          [done|by eapply Hpos].
      + intros span Hne. by rewrite fn_lookup_insert_ne.
      + by rewrite fn_lookup_insert.
      + intros name. destruct (decide (st h = name)) as [<-|Hne].
        * by rewrite lookup_insert_eq.
        * by rewrite lookup_insert_ne.
    - eexists _, _. split; [reflexivity|]. repeat split; auto. }
  destruct Hacc as (cnt1 & st1 & -> & Hpos1 & Hothers & Hhead & Hcnt1).
  destruct (IH cnt1 st1 Hnd Hpos1) as [IHout IHin].
  assert (Hnames : names_of st1 t = names_of st t).
  { apply names_of_agree. intros span Hin. apply Hothers. by intros ->. }
  split.
  - intros span Hout. apply not_elem_of_cons in Hout as [Hne Hout].
    by rewrite IHout, Hothers.
  - intros [|i] span Hi.
    + injection Hi as <-. rewrite (IHout h Hh), Hhead.
      destruct (cnt !! st h); [|done]. simpl. rewrite occurrences_nil.
      by rewrite Nat.add_0_r.
    + simpl in Hi. rewrite (IHin i span Hi).
      assert (Hne : span ≠ h).
      { intros ->. by apply list_elem_of_lookup_2 in Hi. }
      rewrite (Hothers span Hne), Hnames, Hcnt1.
      change (take (S i) (names_of st (h :: t)))
        with (st h :: take i (names_of st t)).
      rewrite occurrences_cons.
      destruct (cnt !! st h) as [c|] eqn:E.
      * destruct (decide (st h = st span)) as [Heq|Hneq].
        -- rewrite <- Heq, E. f_equal. lia.
        -- by destruct (cnt !! st span).
      * destruct (decide (st h = st span)) as [Heq|Hneq].
        -- by rewrite <- Heq, E.
        -- by destruct (cnt !! st span).
Qed.

Lemma duplicated_positive names n c :
  duplicated (Counter names) !! n = Some c → c ≠ 0%nat.
Proof.
  rewrite duplicated_lookup. case_decide; [|done]. by intros [= <-].
Qed.

(** The final name of every span of a batch of distinct spans. *)
Lemma deduplicate_spec spans st :
  NoDup spans →
  (∀ span, span ∉ spans →
     deduplicate_span_names_in_place spans st span = st span)
  ∧ (∀ i span, spans !! i = Some span →
       deduplicate_span_names_in_place spans st span
       = if decide (1 < occurrences (st span) (names_of st spans))%nat
         then indexed_name (st span)
                (occurrences (st span) (take (S i) (names_of st spans)))
         else st span).
Proof.
  intros Hnd. unfold deduplicate_span_names_in_place.
  change (Counter _) with (Counter (names_of st spans)).
  destruct (rename_loop spans (duplicated (Counter (names_of st spans))) st Hnd
              (duplicated_positive _)) as [Hout Hin].
  split; [exact Hout|].
  intros i span Hi. rewrite (Hin i span Hi).
  rewrite duplicated_lookup. case_decide; [|done].
  rewrite occurrences_take_succ; [done|].
  unfold names_of. by rewrite list_lookup_fmap, Hi.
Qed.

End DeduplicationFacts.

Section Deduplication.
Implicit Types (st : store) (spans : list nat) (names : list string).

Lemma batch_of_names_NoDup names : NoDup (batch_of_names names).
Proof. apply NoDup_seq. Qed.

Lemma names_of_batch names :
  names_of (store_of_names names) (batch_of_names names) = names.
Proof.
  apply list_eq. intros i. unfold names_of, batch_of_names, store_of_names.
  rewrite list_lookup_fmap.
  destruct (decide (i < length names)%nat) as [Hlt|Hge].
  - rewrite lookup_seq_lt by done. simpl.
    destruct (lookup_lt_is_Some_2 names i Hlt) as [n Hn]. by rewrite Hn.
  - rewrite lookup_seq_ge by lia. simpl.
    symmetry. apply lookup_ge_None. lia.
Qed.

(** The names of a batch of distinct spans after deduplication, position by
    position. *)
Lemma deduplicated_names_lookup names i name :
  names !! i = Some name →
  deduplicated_names names !! i
  = Some (if decide (1 < occurrences name names)%nat
          then indexed_name name (occurrences name (take (S i) names))
          else name).
Proof.
  intros Hi. unfold deduplicated_names, names_of at 1.
  rewrite list_lookup_fmap. unfold batch_of_names at 2.
  rewrite lookup_seq_lt by (by eapply lookup_lt_Some). simpl. f_equal.
  destruct (deduplicate_spec (batch_of_names names) (store_of_names names)
              (batch_of_names_NoDup names)) as [_ H].
  rewrite (H i i).
  - rewrite names_of_batch. unfold store_of_names. by rewrite Hi.
  - unfold batch_of_names. apply lookup_seq_lt. by eapply lookup_lt_Some.
Qed.

Lemma deduplicated_names_length names :
  length (deduplicated_names names) = length names.
Proof.
  unfold deduplicated_names, names_of, batch_of_names.
  by rewrite length_fmap, length_seq.
Qed.

(** A name that occurs exactly once in the batch is left as it is. *)
Lemma deduplicate_keeps_single_names spans st i span :
  NoDup spans → spans !! i = Some span →
  occurrences (st span) (names_of st spans) = 1%nat →
  deduplicate_span_names_in_place spans st span = st span.
Proof.
  intros Hnd Hi Hone. destruct (deduplicate_spec spans st Hnd) as [_ H].
  rewrite (H i span Hi), Hone. by rewrite decide_False by lia.
Qed.

(** C4: in a batch of distinct spans, the span at position [i] whose name
    occurs more than once is renamed to that name followed by an underscore
    and the number of occurrences of the name up to and including position
    [i]; a batch whose names are all different is left unchanged, and so is
    everything when the batch is empty; the four sample batches of the
    specification come out as stated. *)
Theorem deduplicate_renames_kth_occurrence spans st :
  NoDup spans →
  (∀ i span, spans !! i = Some span →
     (1 < occurrences (st span) (names_of st spans))%nat →
     deduplicate_span_names_in_place spans st span
     = indexed_name (st span)
         (occurrences (st span) (take (S i) (names_of st spans))))
  ∧ (NoDup (names_of st spans) →
       ∀ span, deduplicate_span_names_in_place spans st span = st span)
  ∧ (∀ span, deduplicate_span_names_in_place [] st span = st span)
  ∧ deduplicated_names ["red"; "red"] = ["red_1"; "red_2"]
  ∧ deduplicated_names ["red"; "red"; "blue"] = ["red_1"; "red_2"; "blue"]
  ∧ deduplicated_names ["a"; "b"; "c"] = ["a"; "b"; "c"]
  ∧ deduplicated_names [] = [].
Proof.
  intros Hnd. destruct (deduplicate_spec spans st Hnd) as [Hout Hin].
  split; [|split; [|split]].
  - intros i span Hi Hdup. rewrite (Hin i span Hi). by rewrite decide_True.
  - intros Huniq span. destruct (decide (span ∈ spans)) as [Hel|Hel].
    + apply list_elem_of_lookup_1 in Hel as [i Hi]. rewrite (Hin i span Hi).
      pose proof (occurrences_NoDup (st span) _ Huniq).
      by rewrite decide_False by lia.
    + by apply Hout.
  - reflexivity.
  - repeat split; vm_compute; reflexivity.
Qed.

Lemma deduplicate_renames_kth_occurrence_witness :
  (∀ i span, [0; 1; 2]%nat !! i = Some span →
     (1 < occurrences (store_of_names ["red"; "red"; "blue"] span)
            (names_of (store_of_names ["red"; "red"; "blue"]) [0; 1; 2]%nat))%nat →
     deduplicate_span_names_in_place [0; 1; 2]%nat
       (store_of_names ["red"; "red"; "blue"]) span
     = indexed_name (store_of_names ["red"; "red"; "blue"] span)
         (occurrences (store_of_names ["red"; "red"; "blue"] span)
            (take (S i)
               (names_of (store_of_names ["red"; "red"; "blue"]) [0; 1; 2]%nat))))
  ∧ (NoDup (names_of (store_of_names ["red"; "red"; "blue"]) [0; 1; 2]%nat) →
       ∀ span,
         deduplicate_span_names_in_place [0; 1; 2]%nat
           (store_of_names ["red"; "red"; "blue"]) span
         = store_of_names ["red"; "red"; "blue"] span)
  ∧ (∀ span,
       deduplicate_span_names_in_place []
         (store_of_names ["red"; "red"; "blue"]) span
       = store_of_names ["red"; "red"; "blue"] span)
  ∧ deduplicated_names ["red"; "red"] = ["red_1"; "red_2"]
  ∧ deduplicated_names ["red"; "red"; "blue"] = ["red_1"; "red_2"; "blue"]
  ∧ deduplicated_names ["a"; "b"; "c"] = ["a"; "b"; "c"]
  ∧ deduplicated_names [] = [].
Proof.
  apply (deduplicate_renames_kth_occurrence [0; 1; 2]%nat
           (store_of_names ["red"; "red"; "blue"])).
  apply (NoDup_seq 0 3).
Defined.

(** C1 at a batch where a span already carries a name that the renaming
    produces: the third span keeps ["red_1"], the name given to the first,
    so two spans of the result share a name. *)
Theorem deduplicate_collides_with_existing_name :
  deduplicated_names ["red"; "red"; "red_1"] = ["red_1"; "red_2"; "red_1"]
  ∧ deduplicated_names ["red"; "red"; "red_1"] !! 0%nat
    = deduplicated_names ["red"; "red"; "red_1"] !! 2%nat.
Proof. split; vm_compute; reflexivity. Qed.

(** The same span listed twice is renamed once. *)
Example deduplicate_aliased_span :
  names_of (deduplicate_span_names_in_place [0; 0]%nat (store_of_names ["red"]))
    [0; 0]%nat
  = ["red_1"; "red_1"].
Proof. vm_compute. reflexivity. Qed.

End Deduplication.

Lemma deduplicate_keeps_single_names_witness :
  deduplicate_span_names_in_place [0; 1; 2]%nat
    (store_of_names ["red"; "red"; "blue"]) 2%nat
  = store_of_names ["red"; "red"; "blue"] 2%nat.
Proof.
  apply (deduplicate_keeps_single_names [0; 1; 2]%nat
           (store_of_names ["red"; "red"; "blue"]) 2 2).
  - apply (NoDup_seq 0 3).
  - reflexivity.
  - vm_compute. reflexivity.
Defined.

(** ** When deduplication does make the names unique *)

Section Uniqueness.
Implicit Types (names : list string) (name s t : string).

Lemma pretty_N_go_no_underscore (x : N) : ∀ s,
  no_underscore s = true → no_underscore (pretty_N_go x s) = true.
Proof.
  induction (N.lt_wf_0 x) as [x _ IH]; intros s Hs.
  assert (x = 0 ∨ 0 < x)%N as [->|Hx] by lia; [done|].
  rewrite pretty_N_go_step by done. apply IH; [by apply N.div_lt|].
  unfold no_underscore. simpl. rewrite andb_true_iff. split; [|exact Hs].
  unfold pretty_N_char. by repeat case_match.
Qed.

Lemma pretty_nat_no_underscore (k : nat) : no_underscore (pretty k) = true.
Proof.
  unfold pretty, pretty_nat, pretty, pretty_N.
  case_decide; [done|]. by apply pretty_N_go_no_underscore.
Qed.

(** The last underscore of an indexed name separates the name from the
    index. *)
Lemma underscore_split s : ∀ t d1 d2,
  no_underscore d1 = true → no_underscore d2 = true →
  s +:+ "_" +:+ d1 = t +:+ "_" +:+ d2 → s = t ∧ d1 = d2.
Proof.
  assert (∀ u d d', no_underscore d = true → d = u +:+ "_" +:+ d' → False)
    as Hno.
  { intros u d d' Hd ->. unfold no_underscore in Hd.
    rewrite all_chars_append, append_cons in Hd. simpl in Hd.
    by rewrite andb_false_r in Hd. }
  induction s as [|c s IH]; intros [|c' t] d1 d2 H1 H2 E;
    rewrite ?append_cons, ?append_nil_l in E.
  - by injection E as ->.
  - injection E as <- E. by destruct (Hno t d1 d2 H1 E).
  - injection E as -> E. symmetry in E. by destruct (Hno s d2 d1 H2 E).
  - injection E as -> E. destruct (IH t d1 d2 H1 H2 E) as [-> ->]. done.
Qed.

Lemma indexed_name_inj name name' k k' :
  indexed_name name k = indexed_name name' k' → name = name' ∧ k = k'.
Proof.
  unfold indexed_name. intros E.
  apply underscore_split in E as [-> E];
    auto using pretty_nat_no_underscore.
  split; [done|]. by apply (inj pretty).
Qed.

Lemma occurrences_take_le name names i j :
  (i ≤ j)%nat →
  (occurrences name (take i names) ≤ occurrences name (take j names))%nat.
Proof.
  revert i j. induction names as [|n names IH]; intros i j Hij.
  { by rewrite !take_nil. }
  destruct i as [|i]; [rewrite take_0, occurrences_nil; lia|].
  destruct j as [|j]; [lia|]. simpl. rewrite !occurrences_cons.
  pose proof (IH i j ltac:(lia)). lia.
Qed.

Lemma occurrences_take_total name names i :
  (occurrences name (take i names) ≤ occurrences name names)%nat.
Proof.
  rewrite <- (firstn_all names) at 2.
  destruct (decide (i ≤ length names)%nat).
  - by apply occurrences_take_le.
  - rewrite (take_ge names i) by lia. by rewrite firstn_all.
Qed.

Lemma occurrences_lookup_twice name names i j :
  i ≠ j → names !! i = Some name → names !! j = Some name →
  (1 < occurrences name names)%nat.
Proof.
  assert (∀ i j, (i < j)%nat → names !! i = Some name →
                 names !! j = Some name → (1 < occurrences name names)%nat) as H.
  { clear i j. intros i j Hij Hi Hj.
    pose proof (occurrences_take_succ name names i Hi).
    pose proof (occurrences_take_succ name names j Hj).
    pose proof (occurrences_take_le name names (S i) j ltac:(lia)).
    pose proof (occurrences_take_total name names (S j)). lia. }
  intros Hne Hi Hj. destruct (decide (i < j)%nat); [by eapply H|].
  eapply (H j i); [lia|done..].
Qed.

(** The position of the [k]-th occurrence of a name is determined by [k]. *)
Lemma occurrences_take_inj name names i j :
  names !! i = Some name → names !! j = Some name →
  occurrences name (take (S i) names) = occurrences name (take (S j) names) →
  i = j.
Proof.
  intros Hi Hj E.
  pose proof (occurrences_take_succ name names i Hi).
  pose proof (occurrences_take_succ name names j Hj).
  destruct (decide (i < j)%nat).
  { pose proof (occurrences_take_le name names (S i) j ltac:(lia)). lia. }
  destruct (decide (j < i)%nat); [|lia].
  pose proof (occurrences_take_le name names (S j) i ltac:(lia)). lia.
Qed.

(** Deduplication gives every span of the batch a name of its own as long
    as no span already carries one of the names that the renaming
    produces. *)
Theorem deduplicated_names_unique names :
  fresh_indexed_names names → NoDup (deduplicated_names names).
Proof.
  intros Hfresh. apply NoDup_alt. intros i j x Hi Hj.
  assert (is_Some (names !! i)) as [ni Hni].
  { apply lookup_lt_is_Some. rewrite <- deduplicated_names_length.
    by eapply lookup_lt_Some. }
  assert (is_Some (names !! j)) as [nj Hnj].
  { apply lookup_lt_is_Some. rewrite <- deduplicated_names_length.
    by eapply lookup_lt_Some. }
  rewrite (deduplicated_names_lookup names i ni Hni) in Hi.
  rewrite (deduplicated_names_lookup names j nj Hnj) in Hj.
  injection Hi as Hi. injection Hj as Hj. subst x.
  destruct (decide (i = j)) as [|Hne]; [done|exfalso].
  assert (∀ n i, names !! i = Some n →
            (1 ≤ occurrences n (take (S i) names) ≤ occurrences n names)%nat)
    as Hrange.
  { intros n i' Hn. rewrite (occurrences_take_succ n names i' Hn).
    pose proof (occurrences_take_total n names (S i')).
    rewrite (occurrences_take_succ n names i' Hn) in H. lia. }
  destruct (decide (1 < occurrences ni names)%nat) as [Hdi|Hsi];
    destruct (decide (1 < occurrences nj names)%nat) as [Hdj|Hsj].
  - apply indexed_name_inj in Hj as [-> Hk].
    apply Hne. symmetry.
    exact (occurrences_take_inj ni names j i Hnj Hni Hk).
  - apply (Hfresh ni (occurrences ni (take (S i) names)));
      [by eapply list_elem_of_lookup_2|done|by apply Hrange|].
    rewrite <- Hj. by eapply list_elem_of_lookup_2.
  - apply (Hfresh nj (occurrences nj (take (S j) names)));
      [by eapply list_elem_of_lookup_2|done|by apply Hrange|].
    rewrite Hj. by eapply list_elem_of_lookup_2.
  - subst nj. pose proof (occurrences_lookup_twice ni names i j Hne Hni Hnj). lia.
Qed.

Lemma deduplicated_names_unique_witness :
  NoDup (deduplicated_names ["red"; "red"; "blue"]).
Proof.
  apply (deduplicated_names_unique ["red"; "red"; "blue"]).
  intros name k Hin Hdup Hk.
  repeat (apply elem_of_cons in Hin as [->|Hin]);
    [| |vm_compute in Hdup; lia|by apply elem_of_nil in Hin].
  - vm_compute in Hk.
    assert (k = 1 ∨ k = 2)%nat as [->| ->] by lia;
      vm_compute; intros H;
      repeat (apply elem_of_cons in H as [H|H]; [discriminate H|]);
      by apply elem_of_nil in H.
  - vm_compute in Hk.
    assert (k = 1 ∨ k = 2)%nat as [->| ->] by lia;
      vm_compute; intros H;
      repeat (apply elem_of_cons in H as [H|H]; [discriminate H|]);
      by apply elem_of_nil in H.
Defined.

End Uniqueness.

(** *** Collisions, fixed points and what a run may write *)

Section DeduplicationLaws.
Implicit Types (st : store) (spans : list nat) (names : list string)
  (name : string).

Lemma indexed_name_longer name k :
  (String.length name < String.length (indexed_name name k))%nat.
Proof. unfold indexed_name. rewrite length_append, append_cons. simpl. lia. Qed.

Lemma indexed_name_ne name k : indexed_name name k ≠ name.
Proof.
  intros E. pose proof (indexed_name_longer name k) as H. rewrite E in H. lia.
Qed.

(** The [k]-th occurrence of a name has a position. *)
Lemma occurrence_position name names : ∀ k,
  (1 ≤ k ≤ occurrences name names)%nat →
  ∃ j, names !! j = Some name ∧ occurrences name (take (S j) names) = k.
Proof.
  induction names as [|n names IH]; intros k Hk.
  { rewrite occurrences_nil in Hk. lia. }
  rewrite occurrences_cons in Hk.
  destruct (decide (n = name)) as [->|Hne].
  - destruct (decide (k = 1%nat)) as [->|Hk1].
    + exists 0%nat. split; [done|]. simpl. rewrite occurrences_cons.
      rewrite decide_True by done. rewrite take_0, occurrences_nil. lia.
    + destruct (IH (k - 1)%nat ltac:(lia)) as (j & Hj & Ho).
      exists (S j). split; [done|].
      change (take (S (S j)) (name :: names)) with (name :: take (S j) names).
      rewrite occurrences_cons, decide_True by done. lia.
  - destruct (IH k ltac:(lia)) as (j & Hj & Ho).
    exists (S j). split; [done|].
    change (take (S (S j)) (n :: names)) with (n :: take (S j) names).
    rewrite occurrences_cons, decide_False by done. lia.
Qed.

Lemma occurrences_take_range name names i :
  names !! i = Some name →
  (1 ≤ occurrences name (take (S i) names) ≤ occurrences name names)%nat.
Proof.
  intros Hn. pose proof (occurrences_take_total name names (S i)) as H.
  rewrite (occurrences_take_succ name names i Hn) in *. lia.
Qed.

Lemma deduplicated_single names i name :
  names !! i = Some name → ¬ (1 < occurrences name names)%nat →
  deduplicated_names names !! i = Some name.
Proof.
  intros Hi Hs. rewrite (deduplicated_names_lookup names i name Hi).
  by rewrite decide_False.
Qed.

Lemma deduplicated_renamed names i name :
  names !! i = Some name → (1 < occurrences name names)%nat →
  deduplicated_names names !! i
  = Some (indexed_name name (occurrences name (take (S i) names))).
Proof.
  intros Hi Hs. rewrite (deduplicated_names_lookup names i name Hi).
  by rewrite decide_True.
Qed.

(** The names come out unique exactly when no name that occurs once is one
    of the names that the renaming produces; and a collision never involves
    two spans that had the same name. *)
Theorem deduplicated_names_unique_iff names :
  (NoDup (deduplicated_names names) ↔ collision_free names)
  ∧ (∀ i j name, i ≠ j → names !! i = Some name → names !! j = Some name →
       deduplicated_names names !! i ≠ deduplicated_names names !! j).
Proof.
  assert (∀ i j name, i ≠ j → names !! i = Some name → names !! j = Some name →
            deduplicated_names names !! i ≠ deduplicated_names names !! j)
    as Hsame.
  { intros i j name Hne Hi Hj.
    pose proof (occurrences_lookup_twice name names i j Hne Hi Hj) as Hdup.
    rewrite (deduplicated_renamed names i name Hi Hdup).
    rewrite (deduplicated_renamed names j name Hj Hdup).
    intros [= E]. apply indexed_name_inj in E as [_ E].
    apply Hne. by eapply occurrences_take_inj. }
  split; [|exact Hsame]. split.
  - intros Hnd single name k Hin Hone Hdup Hk ->.
    apply list_elem_of_lookup_1 in Hin as [i Hi].
    destruct (occurrence_position name names k Hk) as (j & Hj & Ho).
    assert (deduplicated_names names !! i = Some (indexed_name name k)) as Ei.
    { apply deduplicated_single; [done|lia]. }
    assert (deduplicated_names names !! j = Some (indexed_name name k)) as Ej.
    { rewrite (deduplicated_renamed names j name Hj Hdup). by rewrite Ho. }
    pose proof (proj1 (NoDup_alt _) Hnd i j _ Ei Ej) as ->.
    rewrite Hi in Hj. injection Hj as Hj.
    by apply indexed_name_ne in Hj.
  - intros Hfree. apply NoDup_alt. intros i j x Hi Hj.
    assert (is_Some (names !! i)) as [ni Hni].
    { apply lookup_lt_is_Some. rewrite <- deduplicated_names_length.
      by eapply lookup_lt_Some. }
    assert (is_Some (names !! j)) as [nj Hnj].
    { apply lookup_lt_is_Some. rewrite <- deduplicated_names_length.
      by eapply lookup_lt_Some. }
    destruct (decide (i = j)) as [|Hne]; [done|exfalso].
    destruct (decide (ni = nj)) as [->|Hnn].
    { apply (Hsame i j nj Hne Hni Hnj). by rewrite Hi, Hj. }
    assert (∀ n p, names !! p = Some n → ¬ (1 < occurrences n names)%nat →
              occurrences n names = 1%nat) as Hone.
    { intros n p Hp Hs.
      pose proof (occurrences_pos n names (list_elem_of_lookup_2 _ _ _ Hp)).
      lia. }
    destruct (decide (1 < occurrences ni names)%nat) as [Hdi|Hsi];
      destruct (decide (1 < occurrences nj names)%nat) as [Hdj|Hsj].
    + rewrite (deduplicated_renamed names i ni Hni Hdi) in Hi.
      rewrite (deduplicated_renamed names j nj Hnj Hdj) in Hj.
      rewrite <- Hj in Hi. injection Hi as Hi.
      by apply indexed_name_inj in Hi as [? _].
    + rewrite (deduplicated_renamed names i ni Hni Hdi) in Hi.
      rewrite (deduplicated_single names j nj Hnj Hsj) in Hj.
      rewrite <- Hi in Hj. injection Hj as Hj.
      apply (Hfree nj ni (occurrences ni (take (S i) names)));
        eauto using list_elem_of_lookup_2, occurrences_take_range.
    + rewrite (deduplicated_single names i ni Hni Hsi) in Hi.
      rewrite (deduplicated_renamed names j nj Hnj Hdj) in Hj.
      rewrite <- Hj in Hi. injection Hi as Hi.
      apply (Hfree ni nj (occurrences nj (take (S j) names)));
        eauto using list_elem_of_lookup_2, occurrences_take_range.
    + rewrite (deduplicated_single names i ni Hni Hsi) in Hi.
      rewrite (deduplicated_single names j nj Hnj Hsj) in Hj.
      congruence.
Qed.

(** A batch is left as it is exactly when its names are unique, so a second
    run changes nothing exactly when the first one made the names unique. *)
Theorem deduplication_fixed_points names :
  (deduplicated_names names = names ↔ NoDup names)
  ∧ (deduplicated_names (deduplicated_names names) = deduplicated_names names
     ↔ NoDup (deduplicated_names names)).
Proof.
  assert (∀ l, deduplicated_names l = l ↔ NoDup l) as Hfix.
  { intros l. split.
    - intros E. apply NoDup_alt. intros i j x Hi Hj.
      destruct (decide (i = j)) as [|Hne]; [done|exfalso].
      pose proof (occurrences_lookup_twice x l i j Hne Hi Hj) as Hdup.
      pose proof (deduplicated_renamed l i x Hi Hdup) as Hr.
      rewrite E, Hi in Hr. injection Hr as Hr. symmetry in Hr.
      by apply indexed_name_ne in Hr.
    - intros Hnd. apply list_eq. intros i.
      destruct (l !! i) as [x|] eqn:Hi.
      + apply deduplicated_single; [done|].
        pose proof (occurrences_NoDup x l Hnd). lia.
      + apply lookup_ge_None. rewrite deduplicated_names_length.
        by apply lookup_ge_None. }
  split; apply Hfix.
Qed.

Lemma rename_appends spans : ∀ cnt st span,
  (span ∉ spans → (foldl rename (cnt, st) spans).2 span = st span)
  ∧ ∃ suffix, (foldl rename (cnt, st) spans).2 span = st span +:+ suffix.
Proof.
  induction spans as [|h t IH]; intros cnt st span.
  { split; [done|]. exists "". by rewrite append_nil_r. }
  change (foldl rename (cnt, st) (h :: t))
    with (foldl rename (rename (cnt, st) h) t).
  assert (∃ cnt1 st1, rename (cnt, st) h = (cnt1, st1)
            ∧ (span ≠ h → st1 span = st span)
            ∧ ∃ suffix, st1 span = st span +:+ suffix) as Hstep.
  { unfold rename. destruct (cnt !! st h) as [c|].
    - destruct (bool_decide (c ≠ 0%nat)).
      + eexists _, _. split; [reflexivity|]. split.
        * intros Hne. by rewrite fn_lookup_insert_ne.
        * destruct (decide (h = span)) as [->|Hne].
          -- rewrite fn_lookup_insert. unfold indexed_name. eauto.
          -- rewrite fn_lookup_insert_ne by done.
             exists "". by rewrite append_nil_r.
      + eexists _, _. split; [reflexivity|]. split; [done|].
        exists "". by rewrite append_nil_r.
    - eexists _, _. split; [reflexivity|]. split; [done|].
      exists "". by rewrite append_nil_r. }
  destruct Hstep as (cnt1 & st1 & -> & Hframe & suffix1 & Happ).
  destruct (IH cnt1 st1 span) as [IHframe (suffix2 & IHapp)].
  split.
  - intros Hout. apply not_elem_of_cons in Hout as [Hne Hout].
    by rewrite IHframe, Hframe.
  - exists (suffix1 +:+ suffix2). by rewrite IHapp, Happ, append_assoc.
Qed.

(** Whatever the batch, a span listed twice included, a run writes only to
    spans of the batch and only appends to their names. *)
Theorem deduplicate_only_appends spans st span :
  (span ∉ spans → deduplicate_span_names_in_place spans st span = st span)
  ∧ ∃ suffix,
      deduplicate_span_names_in_place spans st span = st span +:+ suffix.
Proof. apply rename_appends. Qed.

End DeduplicationLaws.

(** ** AttributeDecoder *)

Lemma get_otel_attribute_handler (span : Span) (key : string) :
  raises (loads (attributes span !! key)) →
  get_otel_attribute span key
  = (Ret PNone, [Debug ("Failed to get attribute " +:+ key)]).
Proof. intros [e He]. unfold get_otel_attribute. by rewrite He. Qed.

Lemma loads_missing : raises (loads None).
Proof. by exists TypeError. Qed.


Example malformed_attribute_is_absent :
  get_otel_attribute (span_with "mlflow.spanInputs" "{oops") "mlflow.spanInputs"
  = (Ret PNone, [Debug "Failed to get attribute mlflow.spanInputs"]).
Proof. vm_compute. reflexivity. Qed.

Example missing_attribute_is_absent :
  get_otel_attribute empty_span "mlflow.spanInputs"
  = (Ret PNone, [Debug "Failed to get attribute mlflow.spanInputs"]).
Proof. vm_compute. reflexivity. Qed.

Example wellformed_attribute_is_decoded :
  (get_otel_attribute (span_with "k" "[1, true]") "k").1
  = Ret (PList [PInt 1; PBool true]).
Proof. vm_compute. reflexivity. Qed.

(** C10: a stored JSON [null] decodes to [None], the very value the accessor
    returns for a missing key and for a text that is not JSON. *)
Theorem stored_null_reads_as_absent (span : Span) (key : string) :
  attributes span !! key = Some "null" →
  (get_otel_attribute span key).1 = Ret PNone
  ∧ (∀ span', attributes span' !! key = None →
       (get_otel_attribute span' key).1 = (get_otel_attribute span key).1)
  ∧ (∀ span' text, attributes span' !! key = Some text → raises (Json.decode text) →
       (get_otel_attribute span' key).1 = (get_otel_attribute span key).1).
Proof.
  intros Hnull.
  assert (Hs : (get_otel_attribute span key).1 = Ret PNone).
  { unfold get_otel_attribute. rewrite Hnull. reflexivity. }
  split; [exact Hs|]. rewrite Hs. split.
  - intros span' Hm. rewrite get_otel_attribute_handler; [done|].
    rewrite Hm. apply loads_missing.
  - intros span' text Hm Hr. rewrite get_otel_attribute_handler; [done|].
    by rewrite Hm.
Qed.

Lemma stored_null_reads_as_absent_witness :
  (get_otel_attribute (span_with "k" "null") "k").1 = Ret PNone
  ∧ (∀ span', attributes span' !! "k" = None →
       (get_otel_attribute span' "k").1
       = (get_otel_attribute (span_with "k" "null") "k").1)
  ∧ (∀ span' text, attributes span' !! "k" = Some text → raises (Json.decode text) →
       (get_otel_attribute span' "k").1
       = (get_otel_attribute (span_with "k" "null") "k").1).
Proof.
  apply (stored_null_reads_as_absent (span_with "k" "null") "k").
  vm_compute. reflexivity.
Defined.

(** *** When [None] comes back without a log record *)

Section StoredNull.
Implicit Types (s t r : string) (v : pyobj).

Lemma substring_all s : substring 0 (String.length s) s = s.
Proof. induction s as [|c s IH]; [done|]. simpl. by rewrite IH. Qed.

Lemma strip_prefix_cons a p b s :
  strip_prefix (String a p) (String b s)
  = if decide (a = b) then strip_prefix p s else None.
Proof.
  unfold strip_prefix. simpl.
  destruct (ascii_dec a b) as [->|Hne].
  - by rewrite decide_True.
  - by rewrite decide_False.
Qed.

Lemma strip_prefix_nil s : strip_prefix "" s = Some s.
Proof.
  unfold strip_prefix. destruct s as [|c s]; [done|].
  simpl. by rewrite substring_all.
Qed.

Lemma strip_prefix_sound p : ∀ s r, strip_prefix p s = Some r → s = p +:+ r.
Proof.
  induction p as [|a p IH]; intros s r.
  - rewrite strip_prefix_nil. by intros [= ->].
  - destruct s as [|b s]; [discriminate|].
    rewrite strip_prefix_cons. case_decide as E; [|discriminate].
    subst b. intros H. rewrite append_cons. f_equal. by apply IH.
Qed.

Lemma strip_prefix_append p : ∀ r, strip_prefix p (p +:+ r) = Some r.
Proof.
  induction p as [|a p IH]; intros r.
  - apply strip_prefix_nil.
  - rewrite append_cons, strip_prefix_cons, decide_True by done. apply IH.
Qed.

Lemma skip_ws_split s :
  ∃ lead, s = lead +:+ skip_ws s ∧ all_chars is_ws lead = true.
Proof.
  induction s as [|c s (lead & IH & Hlead)].
  - by exists "".
  - simpl. destruct (is_ws c) eqn:E.
    + exists (String c lead). rewrite append_cons, <- IH. simpl.
      by rewrite E, Hlead.
    + by exists "".
Qed.

Lemma skip_ws_append lead s :
  all_chars is_ws lead = true → skip_ws (lead +:+ s) = skip_ws s.
Proof.
  induction lead as [|c lead IH]; [done|].
  simpl. intros [-> H]%andb_true_iff. auto.
Qed.

Lemma skip_ws_all s : all_chars is_ws s = true ↔ skip_ws s = "".
Proof.
  induction s as [|c s IH]; [done|].
  simpl. destruct (is_ws c); simpl; [done|]. split; discriminate.
Qed.

(** A number is never [None]. *)
Lemma match_number_not_none s r : match_number s ≠ Some (Ret PNone, r).
Proof.
  unfold match_number.
  set (X1 := match s with "" => _ | String _ _ => _ end).
  clearbody X1. destruct X1 as [neg s1].
  set (X2 := match s1 with "" => _ | String _ _ => _ end).
  clearbody X2. destruct X2 as [[int_part s2]|]; [|discriminate].
  set (X3 := match s2 with "" => _ | String _ _ => _ end).
  clearbody X3. destruct X3 as [frac s3].
  set (X4 := match s3 with "" => _ | String _ _ => _ end).
  clearbody X4. destruct X4 as [exp s4].
  destruct frac, exp; try discriminate.
  destruct (_ <? _)%nat; discriminate.
Qed.

Lemma array_items_not_none scan fuel : ∀ s values r,
  array_items scan fuel s values ≠ Ret (PNone, r).
Proof.
  induction fuel as [|fuel IH]; intros s values r; simpl; [discriminate|].
  repeat case_match; try discriminate; apply IH.
Qed.

Lemma object_items_not_none scan fuel : ∀ s pairs r,
  object_items scan fuel s pairs ≠ Ret (PNone, r).
Proof.
  induction fuel as [|fuel IH]; intros s pairs r; [discriminate|].
  change (object_items scan (S fuel) s pairs)
    with (match scanstring (S (String.length s)) s [] with
          | Raise e => Raise e
          | Ret (key, r) =>
              match skip_ws r with
              | String ":" r1 =>
                  match scan (skip_ws r1) with
                  | Raise e => Raise e
                  | Ret (value, r2) =>
                      let pairs := dict_set pairs key value in
                      match skip_ws r2 with
                      | String "}" r3 => Ret (PDict pairs, r3)
                      | String "," r3 =>
                          match skip_ws r3 with
                          | String "034" r4 => object_items scan fuel r4 pairs
                          | _ => Raise JSONDecodeError
                          end
                      | _ => Raise JSONDecodeError
                      end
                  end
              | _ => Raise JSONDecodeError
              end
          end).
  repeat case_match; try discriminate; apply IH.
Qed.

(** The scanner yields [None] only where the text reads [null]. *)
Lemma scan_once_none fuel s r :
  scan_once fuel s = Ret (PNone, r) → s = "null" +:+ r.
Proof.
  destruct fuel as [|fuel]; [discriminate|].
  destruct s as [|c s]; [discriminate|].
  assert (∀ s', match match_number s' with
                | Some (Ret v, r') => Ret (v, r')
                | Some (Raise e, _) => Raise e
                | None => Raise JSONDecodeError
                end = Ret (PNone, r) → False) as Hnum.
  { intros s'. pose proof (match_number_not_none s' r) as Hn.
    destruct (match_number s') as [[[v|e] r']|]; try discriminate.
    intros [= -> ->]. by apply Hn. }
  assert (∀ word v', v' ≠ PNone →
            match strip_prefix word (String c s) with
            | Some r' => Ret (v', r')
            | None =>
                match match_number (String c s) with
                | Some (Ret v, r') => Ret (v, r')
                | Some (Raise e, _) => Raise e
                | None => Raise JSONDecodeError
                end
            end = Ret (PNone, r) → False) as Hlit.
  { intros word v' Hv. destruct (strip_prefix word (String c s)).
    - intros [= E _]. by apply Hv.
    - apply Hnum. }
  cbn [scan_once]. repeat case_bool_decide.
  - destruct (scanstring _ s []) as [[str rest]|e]; discriminate.
  - unfold JSONObject. repeat case_match; try discriminate;
      intros Hx; by apply object_items_not_none in Hx.
  - unfold JSONArray. repeat case_match; try discriminate;
      intros Hx; by apply array_items_not_none in Hx.
  - destruct (strip_prefix "null" (String c s)) as [r'|] eqn:E.
    + intros [= ->]. by apply strip_prefix_sound.
    + intros Hx. by apply Hnum in Hx.
  - intros Hx. by apply Hlit in Hx.
  - intros Hx. by apply Hlit in Hx.
  - intros Hx. by apply Hlit in Hx.
  - intros Hx. by apply Hlit in Hx.
  - intros Hx. by apply Hlit in Hx.
  - intros Hx. by apply Hnum in Hx.
Qed.

Lemma scan_once_null fuel r :
  scan_once (S fuel) ("null" +:+ r) = Ret (PNone, r).
Proof.
  rewrite append_cons. cbn [scan_once].
  rewrite !bool_decide_eq_false_2 by discriminate.
  rewrite bool_decide_eq_true_2 by done.
  rewrite <- append_cons. by rewrite strip_prefix_append.
Qed.

(** The texts that decode to [None]. *)
Lemma decode_none text :
  Json.decode text = Ret PNone
  ↔ ∃ lead trail, text = lead +:+ "null" +:+ trail
      ∧ all_chars is_ws lead = true ∧ all_chars is_ws trail = true.
Proof.
  unfold Json.decode. split.
  - destruct (skip_ws_split text) as (lead & Ht & Hlead).
    destruct (scan_once _ (skip_ws text)) as [[v rest]|e] eqn:E; [|discriminate].
    destruct (skip_ws rest) eqn:Hrest; [|discriminate].
    intros [= ->]. apply scan_once_none in E.
    exists lead, rest. split; [by rewrite <- E|].
    split; [done|by apply skip_ws_all].
  - intros (lead & trail & -> & Hlead & Htrail).
    rewrite skip_ws_append by done.
    assert (skip_ws ("null" +:+ trail) = "null" +:+ trail) as -> by done.
    rewrite scan_once_null. by rewrite (proj1 (skip_ws_all trail) Htrail).
Qed.

(** The accessor returns [None] without logging exactly when the stored
    text is the JSON literal [null], with white space around it at most:
    every other [None] comes with a debug record, and every other stored
    document comes back as a value that is not [None]. *)
Theorem silent_none_is_a_stored_null (span : Span) (key : string) :
  get_otel_attribute span key = (Ret PNone, [])
  ↔ ∃ lead trail,
      attributes span !! key = Some (lead +:+ "null" +:+ trail)
      ∧ all_chars is_ws lead = true ∧ all_chars is_ws trail = true.
Proof.
  unfold get_otel_attribute, loads.
  destruct (attributes span !! key) as [text|].
  - destruct (Json.decode text) as [v|e] eqn:E; simpl.
    + split.
      * intros [= ->]. apply decode_none in E as (lead & trail & -> & ? & ?).
        by exists lead, trail.
      * intros (lead & trail & [= ->] & Hl & Ht).
        assert (Json.decode (lead +:+ "null" +:+ trail) = Ret PNone) as E'.
        { apply decode_none. by exists lead, trail. }
        rewrite E in E'. by injection E' as ->.
    + split; [discriminate|].
      intros (lead & trail & [= ->] & Hl & Ht).
      assert (Json.decode (lead +:+ "null" +:+ trail) = Ret PNone) as E'.
      { apply decode_none. by exists lead, trail. }
      rewrite E in E'. discriminate E'.
  - simpl. split; [discriminate|]. by intros (lead & trail & ? & _).
Qed.

Example stored_null_with_blanks :
  get_otel_attribute (span_with "k" "  null ") "k" = (Ret PNone, []).
Proof. vm_compute. reflexivity. Qed.

End StoredNull.

(** ** TraceValueEncoder *)

Import Encoder.

Section EncoderFacts.
Context {mapping : Type}.
Implicit Types (rt : runtime) (obj : pyobject mapping).

Local Ltac not_a_call :=
  let H := fresh in
  intros H;
  repeat (apply elem_of_cons in H as [H|H]; [discriminate|]);
  by apply elem_of_nil in H.

Lemma return_call_calls c (r : result mapping) caught :
  (return_call c r caught).1 = [c].
Proof. reflexivity. Qed.


Lemma rule_langchain_calls rt obj : CallStr ∉ (rule_langchain rt obj).1.
Proof.
  unfold rule_langchain.
  repeat case_match; simpl; not_a_call.
Qed.

Lemma rule_pydantic_calls rt obj : CallStr ∉ (rule_pydantic rt obj).1.
Proof.
  unfold rule_pydantic.
  repeat case_match; simpl; not_a_call.
Qed.

Lemma rule_dataclass_calls obj : CallStr ∉ (rule_dataclass obj).1.
Proof.
  unfold rule_dataclass.
  repeat case_match; simpl; not_a_call.
Qed.




Lemma rule_str_outcome obj :
  rule_str obj =
    ([CallStr], match str_ obj with
                | Ret s => Return (Str s)
                | Raise e => Raised e
                end).
Proof. reflexivity. Qed.




Lemma and_then_outcome (first second : list call * outcome mapping) o :
  (and_then first second).2 = o →
  (first.2 = o ∧ o ≠ Next) ∨ (first.2 = Next ∧ second.2 = o).
Proof.
  destruct first as [calls []]; simpl; intros <-; auto; left; split; congruence.
Qed.

Lemma default_outcome rt obj :
  (default rt obj).1 = (default_blocks rt obj).1
  ∧ (default rt obj).2 =
      match (default_blocks rt obj).2 with
      | Return v => Ret (Some v)
      | Raised e => Raise e
      | Next => Ret None
      end.
Proof. unfold default. destruct (default_blocks rt obj); auto. Qed.

End EncoderFacts.

Section EncoderChain.
Context {mapping : Type}.
Implicit Types (rt : runtime) (obj : pyobject mapping).






End EncoderChain.



Example streaming_response_yields_its_type :
  default llama_runtime streaming_response
  = ([CallAsdict], Ret (Some (TypeObject "StreamingResponse"))).
Proof. reflexivity. Qed.

Example streaming_response_without_the_library :
  default bare_runtime streaming_response = ([CallAsdict; CallStr], Ret (Some (Str "consumed"))).
Proof. reflexivity. Qed.

Example plain_object_is_stringified :
  default bare_runtime plain_object = ([CallStr], Ret (Some (Str "<Plain object>"))).
Proof. reflexivity. Qed.

(** *** Which rule produced the result *)

Section EncoderOrder.
Context {mapping : Type}.
Implicit Types (rt : runtime) (obj : pyobject mapping).

Lemma and_then_calls_iff (first second : list call * outcome mapping) c :
  c ∈ (and_then first second).1
  ↔ c ∈ first.1 ∨ (first.2 = Next ∧ c ∈ second.1).
Proof.
  destruct first as [calls []]; simpl; rewrite ?elem_of_app;
    split; intros H; try tauto; destruct H as [?|[? ?]]; auto; discriminate.
Qed.

Lemma and_then_outcome_iff (first second : list call * outcome mapping) o :
  (and_then first second).2 = o
  ↔ (first.2 = o ∧ o ≠ Next) ∨ (first.2 = Next ∧ second.2 = o).
Proof.
  split; [apply and_then_outcome|].
  destruct first as [calls []]; simpl; intros [[H1 H2]|[H1 H2]];
    congruence.
Qed.


Lemma return_call_returns c (r : result mapping) caught v :
  (return_call c r caught).2 = Return v → ∃ m, v = Mapping m ∧ r = Ret m.
Proof.
  unfold return_call; simpl. destruct r as [m|e'].
  - intros [= <-]. eauto.
  - destruct (caught e'); discriminate.
Qed.

Lemma rule_unsafe_str_calls rt obj : (rule_unsafe_str rt obj).1 = [].
Proof. unfold rule_unsafe_str. by destruct (negb _). Qed.

Lemma rule_unsafe_str_outcome rt obj o :
  (rule_unsafe_str rt obj).2 = o
  ↔ (unsafe_str rt obj ∧ o = Return (TypeObject (type_ obj)))
    ∨ (¬ unsafe_str rt obj ∧ o = Next).
Proof.
  unfold rule_unsafe_str, _is_safe_to_encode_str, unsafe_str.
  destruct (llama_index rt), (isinstance_streaming_response obj); simpl;
    split; intros H; try (destruct H as [[[? ?] ?]|[? ?]]); try congruence;
    try discriminate; try tauto.
  all: try (right; split; [intros [? ?]; discriminate|done]).
  all: try (left; done).
  all: exfalso; apply H; done.
Qed.

(** The calls made by the whole chain, rule by rule. *)
Lemma default_calls rt obj c :
  c ∈ (default rt obj).1
  ↔ c ∈ (rule_langchain rt obj).1
    ∨ ((rule_langchain rt obj).2 = Next
       ∧ (c ∈ (rule_pydantic rt obj).1
          ∨ ((rule_pydantic rt obj).2 = Next
             ∧ (c ∈ (rule_dataclass obj).1
                ∨ ((rule_dataclass obj).2 = Next
                   ∧ (rule_unsafe_str rt obj).2 = Next
                   ∧ c = CallStr))))).
Proof.
  destruct (default_outcome rt obj) as [-> _]. unfold default_blocks.
  rewrite !and_then_calls_iff, rule_unsafe_str_calls, rule_str_outcome. simpl.
  rewrite elem_of_nil, list_elem_of_singleton. tauto.
Qed.

(** The outcome of the whole chain, rule by rule. *)
Lemma default_blocks_outcome rt obj o :
  o ≠ Next →
  (default_blocks rt obj).2 = o
  ↔ (rule_langchain rt obj).2 = o
    ∨ ((rule_langchain rt obj).2 = Next
       ∧ ((rule_pydantic rt obj).2 = o
          ∨ ((rule_pydantic rt obj).2 = Next
             ∧ ((rule_dataclass obj).2 = o
                ∨ ((rule_dataclass obj).2 = Next
                   ∧ ((rule_unsafe_str rt obj).2 = o
                      ∨ ((rule_unsafe_str rt obj).2 = Next
                         ∧ (rule_str obj).2 = o))))))).
Proof.
  intros Ho. unfold default_blocks. rewrite !and_then_outcome_iff. tauto.
Qed.

Lemma default_result rt obj v :
  (default rt obj).2 = Ret (Some v) ↔ (default_blocks rt obj).2 = Return v.
Proof.
  destruct (default_outcome rt obj) as [_ ->].
  destruct ((default_blocks rt obj).2); split; congruence.
Qed.


Lemma rule_langchain_returns rt obj v :
  (rule_langchain rt obj).2 = Return v →
  isinstance_LangChainBaseModel obj = true ∧ ∃ m, v = Mapping m ∧ dict_ obj = Ret m.
Proof.
  unfold rule_langchain. repeat case_match; intros Hr; try discriminate Hr.
  split; [done|]. by apply return_call_returns in Hr.
Qed.

Lemma rule_pydantic_returns rt obj v :
  (rule_pydantic rt obj).2 = Return v →
  isinstance_pydantic_BaseModel obj = true
  ∧ ∃ m, v = Mapping m ∧ (dict_ obj = Ret m ∨ model_dump obj = Ret m).
Proof.
  unfold rule_pydantic. repeat case_match; intros Hr; try discriminate Hr;
    (split; [done|]); apply return_call_returns in Hr as (m & -> & Hm); eauto.
Qed.

Lemma rule_dataclass_returns obj v :
  (rule_dataclass obj).2 = Return v →
  is_dataclass obj = true ∧ ∃ m, v = Mapping m ∧ asdict obj = Ret m.
Proof.
  unfold rule_dataclass. case_match; intros Hr; try discriminate Hr.
  split; [done|]. by apply return_call_returns in Hr.
Qed.

Lemma rule_str_returns obj v :
  (rule_str obj).2 = Return v ↔ ∃ s, v = Str s ∧ str_ obj = Ret s.
Proof.
  rewrite rule_str_outcome. simpl. destruct (str_ obj) as [s|e]; split.
  - intros [= <-]. eauto.
  - by intros (s' & -> & [= ->]).
  - discriminate.
  - by intros (s' & _ & ?).
Qed.

(** The string conversion is the last resort: [__str__] is called exactly
    when no earlier rule takes the value, and a string is the result exactly
    when, in addition, [__str__] returns it. *)
Theorem str_is_the_last_resort rt obj :
  (CallStr ∈ (default rt obj).1 ↔ unclassified rt obj)
  ∧ (∀ s, (default rt obj).2 = Ret (Some (Str s))
          ↔ unclassified rt obj ∧ str_ obj = Ret s).
Proof.
  unfold unclassified. split.
  - rewrite default_calls.
    pose proof (rule_langchain_calls rt obj).
    pose proof (rule_pydantic_calls rt obj).
    pose proof (rule_dataclass_calls obj). tauto.
  - intros s. rewrite default_result, default_blocks_outcome by discriminate.
    rewrite rule_str_returns. split.
    + intros [H|(H1 & [H|(H2 & [H|(H3 & [H|(H4 & H)])])])].
      * by apply rule_langchain_returns in H as (_ & m & ? & _).
      * by apply rule_pydantic_returns in H as (_ & m & ? & _).
      * by apply rule_dataclass_returns in H as (_ & m & ? & _).
      * apply rule_unsafe_str_outcome in H as [[_ ?]|[_ ?]]; discriminate.
      * destruct H as (s' & [= <-] & Hs). done.
    + intros ((H1 & H2 & H3 & H4) & Hs). right. split; [done|].
      right. split; [done|]. right. split; [done|]. right. split; [done|].
      eauto.
Qed.


(** A mapping comes from one of the export methods of a value that is an
    instance of a model class or a dataclass. *)
Theorem mapping_comes_from_an_export rt obj m :
  (default rt obj).2 = Ret (Some (Mapping m)) →
  (isinstance_LangChainBaseModel obj = true
   ∨ isinstance_pydantic_BaseModel obj = true ∨ is_dataclass obj = true)
  ∧ (dict_ obj = Ret m ∨ model_dump obj = Ret m ∨ asdict obj = Ret m).
Proof.
  rewrite default_result, default_blocks_outcome by discriminate.
  rewrite rule_str_returns, rule_unsafe_str_outcome.
  intros [H|(H1 & [H|(H2 & [H|(H3 & [H|(H4 & H)])])])].
  - apply rule_langchain_returns in H as (? & m' & [= <-] & ?). auto.
  - apply rule_pydantic_returns in H as (? & m' & [= <-] & [?|?]); auto.
  - apply rule_dataclass_returns in H as (? & m' & [= <-] & ?). auto.
  - destruct H as [[_ ?]|[_ ?]]; discriminate.
  - by destruct H as (s & ? & _).
Qed.







End EncoderOrder.

Lemma mapping_comes_from_an_export_witness :
  (isinstance_LangChainBaseModel copyable_streaming_response = true
   ∨ isinstance_pydantic_BaseModel copyable_streaming_response = true
   ∨ is_dataclass copyable_streaming_response = true)
  ∧ (dict_ copyable_streaming_response = Ret ["response_gen"; "source_nodes"]
     ∨ model_dump copyable_streaming_response = Ret ["response_gen"; "source_nodes"]
     ∨ asdict copyable_streaming_response = Ret ["response_gen"; "source_nodes"]).
Proof.
  apply (mapping_comes_from_an_export llama_runtime copyable_streaming_response).
  reflexivity.
Defined.


(** ** The request id of the ambient prediction context *)

Lemma truthy_false (s : option string) :
  truthy s = false ↔ s = None ∨ s = Some "".
Proof.
  destruct s as [[|c r]|]; simpl; split; intros H; auto; try discriminate;
    destruct H; discriminate.
Qed.

(** C9, as the code has it: the accessor raises exactly when a context is
    found, the call asks for evaluation mode, the context is in evaluation
    mode, and its request id is [None] or the empty string; the exception is
    then [MlflowTracingException] with code [BAD_REQUEST]; in every other
    case it returns [None] or the request id of the context. *)
Theorem maybe_get_request_id_raises_iff (amb : ambient) (is_evaluate_arg : bool) :
  (raises (maybe_get_request_id amb is_evaluate_arg) ↔
     ∃ context, _try_get_prediction_context amb = Some context
       ∧ is_evaluate_arg = true ∧ is_evaluate context = true
       ∧ (request_id context = None ∨ request_id context = Some ""))
  ∧ (∀ e, maybe_get_request_id amb is_evaluate_arg = Raise e →
          e = MlflowTracingException BAD_REQUEST)
  ∧ (∀ v, maybe_get_request_id amb is_evaluate_arg = Ret v →
          v = None
          ∨ ∃ context, _try_get_prediction_context amb = Some context
              ∧ v = request_id context).
Proof.
  unfold maybe_get_request_id, raises.
  destruct (_try_get_prediction_context amb) as [context|].
  2:{ repeat split; try discriminate.
      - intros [e He]; discriminate.
      - intros (c & Hc & _); discriminate.
      - intros v [= <-]; auto. }
  destruct is_evaluate_arg, (is_evaluate context) eqn:Hev; simpl;
    destruct (truthy (request_id context)) eqn:Ht; simpl;
    (split; [split|split]);
    try (intros [e He]; discriminate He);
    try (intros e [= <-]; reflexivity);
    try (intros e He; discriminate He);
    try (intros v [= <-]; eauto);
    try (intros (c & [= <-] & Ha & Hb & Hc);
         first [discriminate Ha | congruence
               | apply truthy_false in Hc; congruence]).
  all: try (intros _; eexists; reflexivity).
  all: try (intros _; exists context; apply truthy_false in Ht; auto).
Qed.

(** With an empty request id the accessor raises in evaluation mode, though
    the request id is not absent. *)
Lemma empty_request_id_raises :
  maybe_get_request_id empty_request_context true
    = Raise (MlflowTracingException BAD_REQUEST)
  ∧ (request_id <$> get_prediction_context empty_request_context) = Some (Some "").
Proof. split; reflexivity. Qed.

Example missing_request_id_raises :
  maybe_get_request_id evaluation_context true
    = Raise (MlflowTracingException BAD_REQUEST).
Proof. reflexivity. Qed.

Example missing_request_id_outside_evaluation :
  maybe_get_request_id evaluation_context false = Ret None.
Proof. reflexivity. Qed.

(** The two modes of the accessor.  Called without [is_evaluate] it never
    raises and hands over the request id of the context as it is, be it
    [None] or empty; called with [is_evaluate] it returns a request id only
    from a context in evaluation mode, that id is never empty, and the
    plain call returns the same; with no context, because the module is
    missing or none is set, both calls return [None]. *)
Theorem request_id_by_mode (amb : ambient) :
  maybe_get_request_id amb false
    = Ret (match _try_get_prediction_context amb with
           | Some context => request_id context
           | None => None
           end)
  ∧ (∀ rid, maybe_get_request_id amb true = Ret (Some rid) →
        rid ≠ "" ∧ maybe_get_request_id amb false = Ret (Some rid)
        ∧ ∃ context, _try_get_prediction_context amb = Some context
            ∧ is_evaluate context = true ∧ request_id context = Some rid)
  ∧ (maybe_get_request_id amb true = Ret None
     ↔ ∀ context, _try_get_prediction_context amb = Some context →
         is_evaluate context = false)
  ∧ (pyfunc_importable amb = false ∨ get_prediction_context amb = None →
       ∀ mode, maybe_get_request_id amb mode = Ret None).
Proof.
  unfold maybe_get_request_id, _try_get_prediction_context.
  destruct (pyfunc_importable amb), (get_prediction_context amb) as [context|];
    simpl.
  2,3,4: split_and!; [done|discriminate|split; [discriminate|done]|done].
  destruct (is_evaluate context) eqn:Hev,
    (request_id context) as [[|c r]|] eqn:Hrid; simpl; split_and!.
  all: try reflexivity.
  all: try (intros [H|H]; discriminate H).
  all: try (intros rid Hr; discriminate Hr).
  all: try (intros rid Hr; injection Hr as <-;
            split_and!; [done|done|by exists context]).
  all: split; intros Hm.
  all: try discriminate Hm.
  all: try reflexivity.
  all: try (intros context' [= <-]; exact Hev).
  all: specialize (Hm context eq_refl); rewrite Hev in Hm; discriminate Hm.
Qed.

(** ** Tag filtering *)

(** Filtering removes the reserved keys and keeps every other entry as it
    is. *)
Theorem exclude_immutable_tags_lookup (IMMUTABLE_TAGS : gset string)
    (tags : gmap string string) (key : string) :
  Tags.exclude_immutable_tags IMMUTABLE_TAGS tags !! key
  = if decide (key ∈ IMMUTABLE_TAGS) then None else tags !! key.
Proof.
  unfold Tags.exclude_immutable_tags.
  destruct (decide (key ∈ IMMUTABLE_TAGS)) as [Hin|Hout].
  - apply map_lookup_filter_None. right. intros v _. simpl. by intros [].
  - destruct (tags !! key) as [v|] eqn:E.
    + by apply map_lookup_filter_Some.
    + apply map_lookup_filter_None. by left.
Qed.

Example exclude_immutable_tags_sample :
  Tags.exclude_immutable_tags {["mlflow.user"]}
    {["mlflow.user" := "me"; "team" := "ml"]}
  = {["team" := "ml"]}.
Proof.
  apply map_eq. intros key. rewrite exclude_immutable_tags_lookup.
  destruct (decide (key = "mlflow.user")) as [->|Hne].
  - rewrite decide_True by set_solver. by rewrite lookup_singleton_ne.
  - rewrite decide_False by set_solver. by rewrite lookup_insert_ne.
Qed.

(** ** Capture of the arguments of an instrumented call *)

Section CaptureFacts.
Context {function args kwargs value : Type}.
Context (bind_with_defaults : function → args → kwargs → result (gmap string value)).
Context (bool_ : value → result bool).

(** What is captured is what was bound, except for [self]: a [self] is
    captured only when its truth value is false, every other argument is
    captured as bound; and the only exceptions are those of the binding and
    of the truth test of [self]. *)
Theorem capture_drops_a_true_self (func : function) (a : args) (kw : kwargs) :
  (∀ captured,
     capture_function_input_args bind_with_defaults bool_ func a kw = Ret captured →
     ∃ arguments, bind_with_defaults func a kw = Ret arguments
       ∧ (∀ key, key ≠ "self" → captured !! key = arguments !! key)
       ∧ (∀ self, captured !! "self" = Some self
                  ↔ arguments !! "self" = Some self ∧ bool_ self = Ret false))
  ∧ (∀ e,
       capture_function_input_args bind_with_defaults bool_ func a kw = Raise e →
       bind_with_defaults func a kw = Raise e
       ∨ ∃ arguments self, bind_with_defaults func a kw = Ret arguments
           ∧ arguments !! "self" = Some self ∧ bool_ self = Raise e).
Proof.
  unfold capture_function_input_args.
  destruct (bind_with_defaults func a kw) as [arguments|e0].
  2:{ split; [discriminate|]. intros e [= <-]. by left. }
  destruct (arguments !! "self") as [self|] eqn:Hself.
  2:{ split; [|discriminate]. intros captured [= <-]. exists arguments.
      split; [done|]. split; [done|]. intros self. rewrite Hself.
      split; [discriminate|]. by intros [? _]. }
  destruct (bool_ self) as [[]|e0] eqn:Hb.
  - split; [|discriminate]. intros captured [= <-]. exists arguments.
    split; [done|]. split.
    + intros key Hne. by rewrite lookup_delete_ne.
    + intros self'. rewrite lookup_delete_eq. split; [discriminate|].
      intros [[= E] Hf]. congruence.
  - split; [|discriminate]. intros captured [= <-]. exists arguments.
    split; [done|]. split; [done|]. intros self'. rewrite Hself.
    split; [intros [= E]; split; congruence|by intros [? _]].
  - split; [discriminate|]. intros e [= <-]. right. by exists arguments, self.
Qed.

End CaptureFacts.

(** An instance that is false, such as an empty container, stays among the
    captured arguments; a true one goes. *)
Example capture_keeps_a_false_self :
  capture_function_input_args
    (λ (_ _ _ : unit), Ret ({["self" := 0; "x" := 5]} : gmap string Z))
    (λ v, Ret (negb (v =? 0))) () () ()
  = Ret {["self" := 0; "x" := 5]}
  ∧ capture_function_input_args
      (λ (_ _ _ : unit), Ret ({["self" := 1; "x" := 5]} : gmap string Z))
      (λ v, Ret (negb (v =? 0))) () () ()
    = Ret {["x" := 5]}.
Proof. split; vm_compute; reflexivity. Qed.
